(** * TodoTracker: the task store (server) and the task view (client)

    A shallow embedding of
    - [server/storage.ts]  ([DatabaseStorage]: the queries on the [todos] table),
    - [server/routes.ts]   (the four HTTP handlers of [/api/todos]),
    - the page component [Home] of the client (its event handlers and
      derived values),
    and the properties of the CRUD contract proved about them.

    Conventions.
    - A JavaScript string is the list of its UTF-16 code units.
    - A [Date] / SQL timestamp is the number of milliseconds since the epoch.
    - [parseInt] returns a mathematical integer, [None] standing for [NaN];
      the result is exact in the model, as it is in JavaScript for every
      integer of magnitude at most 2^53.
    - The database is a value threaded through the queries.  An awaited
      query either returns or throws: the flag [up] of the handlers says
      which, and the [catch] blocks answer a throw.  A query throws when
      the database cannot be reached or when it is given an id outside the
      range of the integer [id] column ([callReturns]).
    - The position of a row in [rows] is not observable: a listing orders
      the rows by [createdAt], and nothing is stated here on the order of
      rows that share one, except under the hypothesis that none do. *)

From Stdlib Require Import String Ascii.
From Stdlib Require Import List ZArith NArith Bool Lia.
From Stdlib Require Import Permutation Sorted.
Import ListNotations.

Local Open Scope Z_scope.

(* ================================================================== *)
(** * JavaScript strings, [trim] and [parseInt]                        *)
(* ================================================================== *)

Module JS.

Definition jsstring := list N.

(** A string literal of ASCII characters, as code units. *)
Definition lit (s : string) : jsstring :=
  map N_of_ascii (list_ascii_of_string s).

(** [WhiteSpace] and [LineTerminator] of ECMAScript: what [trim] and the
    first step of [parseInt] remove. *)
Definition isWhiteSpace (c : N) : bool :=
  ((c =? 9) || (c =? 10) || (c =? 11) || (c =? 12) || (c =? 13)
   || (c =? 32) || (c =? 160) || (c =? 5760)
   || ((8192 <=? c) && (c <=? 8202))
   || (c =? 8232) || (c =? 8233) || (c =? 8239) || (c =? 8287)
   || (c =? 12288) || (c =? 65279))%N.

Fixpoint trimStart (s : jsstring) : jsstring :=
  match s with
  | [] => []
  | c :: r => if isWhiteSpace c then trimStart r else s
  end.

Definition trimEnd (s : jsstring) : jsstring := rev (trimStart (rev s)).

Definition trim (s : jsstring) : jsstring := trimEnd (trimStart s).

(** Truthiness of a string: [!s] is [true] exactly for the empty string. *)
Definition falsy (s : jsstring) : bool :=
  match s with [] => true | _ :: _ => false end.

(** The value of a code unit as a digit, whatever the radix. *)
Definition digitValue (c : N) : option Z :=
  if ((48 <=? c) && (c <=? 57))%N then Some (Z.of_N c - 48)
  else if ((97 <=? c) && (c <=? 122))%N then Some (Z.of_N c - 97 + 10)
  else if ((65 <=? c) && (c <=? 90))%N then Some (Z.of_N c - 65 + 10)
  else None.

Definition radixDigit (R : Z) (c : N) : option Z :=
  match digitValue c with
  | Some v => if v <? R then Some v else None
  | None => None
  end.

Definition isRadixDigit (R : Z) (c : N) : bool :=
  match radixDigit R c with Some _ => true | None => false end.

(** The longest prefix of radix-[R] digits, as digit values. *)
Fixpoint takeDigits (R : Z) (s : jsstring) : list Z :=
  match s with
  | [] => []
  | c :: r =>
      match radixDigit R c with
      | Some v => v :: takeDigits R r
      | None => []
      end
  end.

Definition digitsValue (R : Z) (ds : list Z) : Z :=
  fold_left (fun acc d => acc * R + d) ds 0.

(** [parseInt]: an optional sign comes first. *)
Definition stripSign (s : jsstring) : Z * jsstring :=
  match s with
  | c :: r =>
      if (c =? 45)%N then (-1, r)
      else if (c =? 43)%N then (1, r)
      else (1, s)
  | [] => (1, [])
  end.

(** [parseInt] with no radix given: a [0x]/[0X] prefix selects radix 16 and
    is removed, otherwise the radix is 10. *)
Definition stripPrefix (s : jsstring) : Z * jsstring :=
  match s with
  | c0 :: c1 :: r =>
      if ((c0 =? 48) && ((c1 =? 120) || (c1 =? 88)))%N then (16, r)
      else (10, s)
  | _ => (10, s)
  end.

(** [parseInt(s)], one argument.  [None] is [NaN], which is what
    [isNaN(id)] then tests. *)
Definition parseInt (s : jsstring) : option Z :=
  let '(sign, s1) := stripSign (trimStart s) in
  let '(R, s2) := stripPrefix s1 in
  match takeDigits R s2 with
  | [] => None
  | ds => Some (sign * digitsValue R ds)
  end.

(** The code units ['0'] to ['9']. *)
Definition isDecimalDigit (c : N) : bool := ((48 <=? c) && (c <=? 57))%N.

(** The decimal digits of a non-negative integer, most significant first;
    [fuel] bounds their number. *)
Fixpoint decimalDigits (fuel : nat) (n : Z) : list Z :=
  match fuel with
  | O => []
  | S f => if n <? 10 then [n] else decimalDigits f (n / 10) ++ [n mod 10]
  end.

(** [String(n)] of an integer [n], as a template literal inserts it: the
    decimal digits, after [-] for a negative one.  JavaScript prints an
    integer this way up to magnitude 2^53. *)
Definition numberToString (n : Z) : jsstring :=
  let digits m :=
    map (fun d => Z.to_N (d + 48))
        (decimalDigits (S (Z.to_nat (Z.log2 m))) m) in
  if n <? 0 then 45%N :: digits (- n) else digits n.

End JS.

Import JS.


Fixpoint streq (a b : jsstring) : bool :=
  match a, b with
  | [], [] => true
  | x :: a', y :: b' => (x =? y)%N && streq a' b'
  | _, _ => false
  end.

(** A parsed JSON value, as [express.json()] hands it over in [req.body]. *)
#[warnings="-register-all"]
Inductive json : Type :=
| JNull
| JBool (b : bool)
| JNum (n : Z)
| JStr (s : jsstring)
| JArr (items : list json)
| JObj (fields : list (jsstring * json)).

(** Property lookup in an object. *)
Fixpoint field (k : jsstring) (fields : list (jsstring * json)) : option json :=
  match fields with
  | [] => None
  | (k', v) :: r => if streq k k' then Some v else field k r
  end.

(* ================================================================== *)
(** * The data model ([shared/schema])                                 *)
(* ================================================================== *)

(** A row of the [todos] table, the type [Todo]. *)
Record Todo : Type := mkTodo {
  id : Z;
  text : jsstring;
  completed : bool;
  createdAt : Z;
  updatedAt : Z
}.

(** [InsertTodo]: what the create operation takes. *)
Record InsertTodo : Type := mkInsertTodo { i_text : jsstring }.

(** [UpdateTodo]: the partial record [{ text?, completed? }]. *)
Record UpdateTodo : Type := mkUpdateTodo {
  u_text : option jsstring;
  u_completed : option bool
}.

(** The result of [schema.safeParse]; an error carries the text of its
    issues. *)
Inductive SafeParse (A : Type) : Type :=
| Success (data : A)
| Failure (error : jsstring).
Arguments Success {A} data.
Arguments Failure {A} error.

(** [fromZodError(error).toString()] of zod-validation-error: the issues
    behind the library's fixed prefix. *)
Definition fromZodError (error : jsstring) : jsstring :=
  lit "Validation error: " ++ error.

(** Modelled from the spec: [insertTodoSchema] of [shared/schema], which is
    not among the sources.  "[text]: non-empty string after trimming";
    "fails with ValidationError when [text] is missing/empty/wrong type";
    "creating a task with empty/whitespace-only text is rejected". *)
Definition specInsertTodoSchema (body : json) : SafeParse InsertTodo :=
  match body with
  | JObj fields =>
      match field (lit "text") fields with
      | Some (JStr s) =>
          if falsy (trim s) then Failure (lit "text: must not be empty")
          else Success (mkInsertTodo s)
      | Some _ => Failure (lit "text: expected string")
      | None => Failure (lit "text: required")
      end
  | _ => Failure (lit "expected object")
  end.

(** Modelled from the spec: [updateTodoSchema] of [shared/schema], which is
    not among the sources.  "partial{[text]?, [completed]?} ... supplied
    fields must pass the same shape validation as create ... Unsupplied
    fields are left unchanged." *)
Definition specUpdateTodoSchema (body : json) : SafeParse UpdateTodo :=
  match body with
  | JObj fields =>
      match field (lit "text") fields, field (lit "completed") fields with
      | Some (JStr s), c =>
          if falsy (trim s) then Failure (lit "text: must not be empty")
          else
            match c with
            | None => Success (mkUpdateTodo (Some s) None)
            | Some (JBool b) => Success (mkUpdateTodo (Some s) (Some b))
            | Some _ => Failure (lit "completed: expected boolean")
            end
      | Some _, _ => Failure (lit "text: expected string")
      | None, None => Success (mkUpdateTodo None None)
      | None, Some (JBool b) => Success (mkUpdateTodo None (Some b))
      | None, Some _ => Failure (lit "completed: expected boolean")
      end
  | _ => Failure (lit "expected object")
  end.

(* ================================================================== *)
(** * The task store: [DatabaseStorage] ([server/storage.ts])          *)
(* ================================================================== *)

(** The [todos] table: its rows, in a list whose order no query shows, and
    the sequence that feeds the [id] column. *)
Record Db : Type := mkDb {
  rows : list Todo;
  nextId : Z
}.

(** A query reads the database and leaves a new one. *)
Definition Query (A : Type) : Type := Db -> A * Db.

(** [await query] inside a [try]: [up] says whether the awaited call
    returns; when it throws the table is left as it was. *)
Definition attempt {A : Type} (up : bool) (q : Query A) (db : Db)
  : option (A * Db) :=
  if up then Some (q db) else None.

(** Modelled from the spec: the type of the [id] column, from the [todos]
    table declaration of [shared/schema], which is not among the sources.
    "[id]: integer", in the PostgreSQL database of [server/db.ts]: the
    32-bit type [integer]. *)
Definition idColumnMax : Z := 2147483647.

Definition inIdColumn (i : Z) : bool :=
  (- idColumnMax - 1 <=? i) && (i <=? idColumnMax).

(** When the awaited call of a query with [eq(todos.id, i)] returns: the
    database is reached, and it takes [i] as a value of the column.  For an
    [i] outside the column it refuses the query, and the call throws. *)
Definition callReturns (connected : bool) (i : Z) : bool :=
  connected && inIdColumn i.

(** [eq(todos.id, id)]. *)
Definition eqId (i : Z) (t : Todo) : bool := id t =? i.

Section OrderBy.
Context {A : Type} (key : A -> Z).

(** [ORDER BY key DESC]: a row goes in front of the first row whose key is
    strictly smaller. *)
Fixpoint insertDesc (t : A) (l : list A) : list A :=
  match l with
  | [] => [t]
  | x :: r => if key x <? key t then t :: l else x :: insertDesc t r
  end.

Definition orderByDesc (l : list A) : list A :=
  fold_right insertDesc [] l.

(** [a] may come before [b] in a list that is descending by [key]. *)
Definition descBy (a b : A) : Prop := key b <= key a.
End OrderBy.

(** [db.select().from(todos).orderBy(desc(todos.createdAt))] *)
Definition getAllTodos : Query (list Todo) := fun db =>
  (orderByDesc createdAt (rows db), db).

(** [const [todo] = await db.select().from(todos).where(eq(todos.id, id));
     return todo || undefined] *)
Definition getTodo (i : Z) : Query (option Todo) := fun db =>
  (hd_error (filter (eqId i) (rows db)), db).

(** Modelled from the spec: the column defaults of the [todos] table
    declaration in [shared/schema], which is not among the sources.  The
    store "assigns a new unique [id]", never reused, "sets
    [completed=false]" and "stamps [createdAt]/[updatedAt] to now". *)
Definition insertDefaults (values : InsertTodo) (now : Z) (db : Db) : Todo :=
  {| id := nextId db;
     text := i_text values;
     completed := false;
     createdAt := now;
     updatedAt := now |}.

(** [const [todo] = await db.insert(todos).values(insertTodo).returning();
     return todo] *)
Definition createTodo (insertTodo : InsertTodo) (now : Z) : Query Todo :=
  fun db =>
    let todo := insertDefaults insertTodo now db in
    (todo, {| rows := rows db ++ [todo]; nextId := nextId db + 1 |}).

(** [.set({ ...updates, updatedAt: new Date() })] on one row: a supplied
    field replaces the column, an absent one leaves it. *)
Definition setColumns (updates : UpdateTodo) (now : Z) (t : Todo) : Todo :=
  {| id := id t;
     text := match u_text updates with Some s => s | None => text t end;
     completed :=
       match u_completed updates with Some b => b | None => completed t end;
     createdAt := createdAt t;
     updatedAt := now |}.

(** [const [todo] = await db.update(todos).set(...).where(eq(todos.id, id))
       .returning();
     return todo || undefined] *)
Definition updateTodo (i : Z) (updates : UpdateTodo) (now : Z)
  : Query (option Todo) := fun db =>
  let returning := map (setColumns updates now) (filter (eqId i) (rows db)) in
  (hd_error returning,
   {| rows := map (fun t => if eqId i t then setColumns updates now t else t)
                  (rows db);
      nextId := nextId db |}).

(** [const result = await db.delete(todos).where(eq(todos.id, id));
     return result.rowCount > 0] *)
Definition deleteTodo (i : Z) : Query bool := fun db =>
  let rowCount := Z.of_nat (length (filter (eqId i) (rows db))) in
  (0 <? rowCount,
   {| rows := filter (fun t => negb (eqId i t)) (rows db);
      nextId := nextId db |}).

(** The integrity the table keeps: [id] is a key, and every [id] handed out
    is below the sequence. *)
Definition wf (db : Db) : Prop :=
  NoDup (map id (rows db)) /\ Forall (fun t => id t < nextId db) (rows db).

(** [i] references an existing task. *)
Definition exists_id (i : Z) (db : Db) : Prop := In i (map id (rows db)).

Definition emptyDb : Db := {| rows := []; nextId := 1 |}.

(* ================================================================== *)
(** * The HTTP handlers ([server/routes.ts])                           *)
(* ================================================================== *)

(** What a handler sends: [res.status(n).json(...)] or [.send()]. *)
Inductive Payload : Type :=
| Message (message : jsstring)
| OneTodo (todo : Todo)
| Todos (todos : list Todo)
| NoContent.

Record Response : Type := mkResponse {
  status : Z;
  payload : Payload
}.

Section Routes.
(** The two zod schemas of [shared/schema] through their [safeParse]. *)
Variable insertTodoSchema : json -> SafeParse InsertTodo.
Variable updateTodoSchema : json -> SafeParse UpdateTodo.

(** [app.get("/api/todos", ...)] *)
Definition route_get (up : bool) (db : Db) : Db * Response :=
  match attempt up getAllTodos db with
  | Some (todos, db') => (db', mkResponse 200 (Todos todos))
  | None => (db, mkResponse 500 (Message (lit "Failed to fetch todos")))
  end.

(** [app.post("/api/todos", ...)] *)
Definition route_post (up : bool) (db : Db) (body : json) (now : Z)
  : Db * Response :=
  match insertTodoSchema body with
  | Failure error => (db, mkResponse 400 (Message (fromZodError error)))
  | Success data =>
      match attempt up (createTodo data now) db with
      | Some (todo, db') => (db', mkResponse 201 (OneTodo todo))
      | None => (db, mkResponse 500 (Message (lit "Failed to create todo")))
      end
  end.

(** [app.put("/api/todos/:id", ...)] *)
Definition route_put (up : bool) (db : Db) (idParam : jsstring)
  (body : json) (now : Z) : Db * Response :=
  match parseInt idParam with
  | None => (db, mkResponse 400 (Message (lit "Invalid todo ID")))
  | Some i =>
      match updateTodoSchema body with
      | Failure error => (db, mkResponse 400 (Message (fromZodError error)))
      | Success data =>
          match attempt up (updateTodo i data now) db with
          | Some (Some todo, db') => (db', mkResponse 200 (OneTodo todo))
          | Some (None, db') =>
              (db', mkResponse 404 (Message (lit "Todo not found")))
          | None =>
              (db, mkResponse 500 (Message (lit "Failed to update todo")))
          end
      end
  end.

(** [app.delete("/api/todos/:id", ...)] *)
Definition route_delete (up : bool) (db : Db) (idParam : jsstring)
  : Db * Response :=
  match parseInt idParam with
  | None => (db, mkResponse 400 (Message (lit "Invalid todo ID")))
  | Some i =>
      match attempt up (deleteTodo i) db with
      | Some (true, db') => (db', mkResponse 204 NoContent)
      | Some (false, db') =>
          (db', mkResponse 404 (Message (lit "Todo not found")))
      | None => (db, mkResponse 500 (Message (lit "Failed to delete todo")))
      end
  end.
End Routes.

(** The error taxonomy of the API: a response in the 4xx or 5xx range
    reports a failed operation. *)
Definition isError (r : Response) : bool := 400 <=? status r.

(* ================================================================== *)
(** * The task view: the page component [Home]                        *)
(* ================================================================== *)

Module View.

(** ["all" | "active" | "completed"] *)
Inductive FilterType : Type := Fall | Factive | Fcompleted.

(** The [useState] cells of [Home]. *)
Record State : Type := mkState {
  newTodoText : jsstring;
  activeFilter : FilterType;
  editingId : option Z;
  editingText : jsstring
}.

(** The fields of [Partial<Todo>] that [Home] ever sends. *)
Record Updates : Type := mkUpdates {
  p_text : option jsstring;
  p_completed : option bool
}.

(** A call of [mutate] on one of the three mutations.  The id of an update
    is [editingId!], which is [null] when no task is being edited. *)
Inductive Mutation : Type :=
| createTodoMutation (text : jsstring)
| updateTodoMutation (id : option Z) (updates : Updates)
| deleteTodoMutation (id : Z).

(** A handler leaves a state and the mutations it fired, in order. *)
Definition Handler : Type := State -> State * list Mutation.

Definition handleSubmit : Handler := fun st =>
  if falsy (trim (newTodoText st)) then (st, [])
  else (st, [createTodoMutation (trim (newTodoText st))]).

Definition handleToggleComplete (todo : Todo) : Handler := fun st =>
  (st, [updateTodoMutation (Some (id todo))
          (mkUpdates None (Some (negb (completed todo))))]).

(** [confirmed] is the answer of [confirm(...)]. *)
Definition handleDeleteTodo (confirmed : bool) (i : Z) : Handler := fun st =>
  if confirmed then (st, [deleteTodoMutation i]) else (st, []).

Definition startEditing (todo : Todo) : Handler := fun st =>
  ({| newTodoText := newTodoText st;
      activeFilter := activeFilter st;
      editingId := Some (id todo);
      editingText := text todo |}, []).

Definition cancelEditing : Handler := fun st =>
  ({| newTodoText := newTodoText st;
      activeFilter := activeFilter st;
      editingId := None;
      editingText := [] |}, []).

Definition saveEditing : Handler := fun st =>
  if falsy (trim (editingText st)) then (st, [])
  else
    ({| newTodoText := newTodoText st;
        activeFilter := activeFilter st;
        editingId := None;
        editingText := [] |},
     [updateTodoMutation (editingId st)
        (mkUpdates (Some (trim (editingText st))) None)]).

(** [onSuccess] of [createTodoMutation] clears the draft of the new task. *)
Definition createTodo_onSuccess (st : State) : State :=
  {| newTodoText := [];
     activeFilter := activeFilter st;
     editingId := editingId st;
     editingText := editingText st |}.

(** [onSuccess] and [onError] of [updateTodoMutation]: the list query is
    invalidated or not, a toast is shown, no state cell is written. *)
Definition updateTodo_onSuccess (st : State) : State := st.
Definition updateTodo_onError (st : State) : State := st.

Definition handleClearCompleted (confirmed : bool) (todos : list Todo)
  : Handler := fun st =>
  let completedTodos := filter completed todos in
  if (length completedTodos =? 0)%nat then (st, [])
  else if confirmed
       then (st, map (fun todo => deleteTodoMutation (id todo)) completedTodos)
       else (st, []).

Definition getFilteredTodos (activeFilter : FilterType) (todos : list Todo)
  : list Todo :=
  match activeFilter with
  | Factive => filter (fun todo => negb (completed todo)) todos
  | Fcompleted => filter (fun todo => completed todo) todos
  | Fall => todos
  end.

Definition totalTodos (todos : list Todo) : Z := Z.of_nat (length todos).

Definition completedTodos (todos : list Todo) : Z :=
  Z.of_nat (length (filter (fun todo => completed todo) todos)).

Definition pendingTodos (todos : list Todo) : Z :=
  totalTodos todos - completedTodos todos.

(** The text that [`/api/todos/${id}`] puts after the last slash, which the
    server reads as [req.params.id]; [null] prints as ["null"]. *)
Definition idParam (i : option Z) : jsstring :=
  match i with
  | Some n => numberToString n
  | None => lit "null"
  end.

(** The ids of the deletes among the mutations fired. *)
Definition deletedIds (ms : list Mutation) : list Z :=
  flat_map (fun m => match m with deleteTodoMutation i => [i] | _ => [] end) ms.

(** [formatRelativeTime(date)]: [now] is the time value of [new Date()] and
    [todoDate] that of [new Date(date)], both in milliseconds;
    [Math.floor] of the quotient is the quotient of [Z]. *)
Definition formatRelativeTime (now todoDate : Z) : jsstring :=
  let diffMs := now - todoDate in
  let diffHours := diffMs / (1000 * 60 * 60) in
  let diffDays := diffHours / 24 in
  if diffHours <? 1 then lit "Just now"
  else if diffHours <? 24
       then numberToString diffHours ++ lit " hour"
            ++ (if 1 <? diffHours then lit "s" else []) ++ lit " ago"
  else if diffDays =? 1 then lit "Yesterday"
  else numberToString diffDays ++ lit " days ago".

End View.

(* ================================================================== *)
(** * Histories and sample data                                        *)
(* ================================================================== *)

(** The mutating operations of the store, and the tables they lead to. *)
Inductive Op : Type :=
| OpCreate (values : InsertTodo) (now : Z)
| OpUpdate (i : Z) (updates : UpdateTodo) (now : Z)
| OpDelete (i : Z).

Definition step (db : Db) (op : Op) : Db :=
  match op with
  | OpCreate values now => snd (createTodo values now db)
  | OpUpdate i updates now => snd (updateTodo i updates now db)
  | OpDelete i => snd (deleteTodo i db)
  end.

Definition run (ops : list Op) (db : Db) : Db := fold_left step ops db.

Definition buyMilk : Todo := mkTodo 1 (lit "Buy milk") false 1000 1000.
Definition walkDog : Todo := mkTodo 2 (lit "Walk dog") true 2000 2500.
Definition payRent : Todo := mkTodo 3 (lit "Pay rent") false 1500 1500.

Definition sampleDb : Db := {| rows := [buyMilk; walkDog; payRent]; nextId := 4 |}.

Definition editingMilk : View.State :=
  View.mkState [] View.Fall (Some 1) (lit "  Buy oat milk ").

(* ================================================================== *)
(** * Facts about the store                                            *)
(* ================================================================== *)

Lemma eqId_true (i : Z) (t : Todo) : eqId i t = true <-> id t = i.
Proof. unfold eqId. apply Z.eqb_eq. Qed.

Lemma eqId_false (i : Z) (t : Todo) : eqId i t = false <-> id t <> i.
Proof. unfold eqId. apply Z.eqb_neq. Qed.

Lemma Db_eta (db : Db) : {| rows := rows db; nextId := nextId db |} = db.
Proof. now destruct db. Qed.

(** No row answers [WHERE id = i] when [i] is not in the table. *)
Lemma where_missing (i : Z) (l : list Todo) :
  ~ In i (map id l) -> filter (eqId i) l = [].
Proof.
  induction l as [|t l IH]; simpl; intros H; [reflexivity|].
  destruct (eqId i t) eqn:E.
  - apply eqId_true in E. exfalso. apply H. now left.
  - apply IH. intros Hin. apply H. now right.
Qed.

Lemma where_not_missing (i : Z) (l : list Todo) :
  ~ In i (map id l) -> filter (fun t => negb (eqId i t)) l = l.
Proof.
  induction l as [|t l IH]; simpl; intros H; [reflexivity|].
  destruct (eqId i t) eqn:E; simpl.
  - apply eqId_true in E. exfalso. apply H. now left.
  - f_equal. apply IH. intros Hin. apply H. now right.
Qed.

Lemma set_missing (i : Z) (f : Todo -> Todo) (l : list Todo) :
  ~ In i (map id l) -> map (fun t => if eqId i t then f t else t) l = l.
Proof.
  induction l as [|t l IH]; simpl; intros H; [reflexivity|].
  destruct (eqId i t) eqn:E.
  - apply eqId_true in E. exfalso. apply H. now left.
  - f_equal. apply IH. intros Hin. apply H. now right.
Qed.

(** After [DELETE ... WHERE id = i] no row has id [i]. *)
Lemma deleted_missing (i : Z) (l : list Todo) :
  ~ In i (map id (filter (fun t => negb (eqId i t)) l)).
Proof.
  intros H. apply in_map_iff in H as (t & Ht & Hin).
  apply filter_In in Hin as (_ & Hneg).
  apply negb_true_iff, eqId_false in Hneg. contradiction.
Qed.

Lemma deleteTodo_missing_eq (i : Z) (db : Db) :
  ~ exists_id i db -> deleteTodo i db = (false, db).
Proof.
  intros H. unfold deleteTodo.
  rewrite (where_missing i (rows db) H), (where_not_missing i (rows db) H).
  simpl. now rewrite Db_eta.
Qed.

Lemma updateTodo_missing_eq (i : Z) (u : UpdateTodo) (now : Z) (db : Db) :
  ~ exists_id i db -> updateTodo i u now db = (None, db).
Proof.
  intros H. unfold updateTodo.
  rewrite (where_missing i (rows db) H), (set_missing i _ (rows db) H).
  simpl. now rewrite Db_eta.
Qed.

(** ** Claim C1 *)

Lemma callReturns_connected (i : Z) : callReturns true i = inIdColumn i.
Proof. reflexivity. Qed.

Lemma route_delete_missing (db : Db) (idParam : jsstring) (i : Z)
  (connected : bool) :
  parseInt idParam = Some i ->
  ~ exists_id i db ->
  route_delete (callReturns connected i) db idParam
  = (db, if callReturns connected i
         then mkResponse 404 (Message (lit "Todo not found"))
         else mkResponse 500 (Message (lit "Failed to delete todo"))).
Proof.
  intros Hp Hm. unfold route_delete, attempt. rewrite Hp.
  destruct (callReturns connected i); [|reflexivity].
  now rewrite (deleteTodo_missing_eq i db Hm).
Qed.

(** C1, as the spec states it, fails on the code.  Deleting id 5 from the
    empty store is answered with 404 "Todo not found", an error of the
    API, where the claim has a non-error "nothing removed" result; and
    deleting id 2147483648, which no task has either, makes the storage
    call throw, which the handler answers with 500. *)
Lemma delete_route_missing_is_404 :
  ~ exists_id 5 emptyDb /\
  route_delete (callReturns true 5) emptyDb (lit "5")
    = (emptyDb, mkResponse 404 (Message (lit "Todo not found"))) /\
  isError (snd (route_delete (callReturns true 5) emptyDb (lit "5"))) = true /\
  ~ exists_id 2147483648 emptyDb /\
  attempt (callReturns true 2147483648) (deleteTodo 2147483648) emptyDb
    = None /\
  route_delete (callReturns true 2147483648) emptyDb (lit "2147483648")
    = (emptyDb, mkResponse 500 (Message (lit "Failed to delete todo"))).
Proof.
  split; [intros H; exact H|]. split; [reflexivity|].
  split; [reflexivity|]. split; [intros H; exact H|].
  split; reflexivity.
Qed.

(** C1 (amended): for an id that references no existing task and lies in
    the range of the integer [id] column, the call of
    [DatabaseStorage.deleteTodo] on a reachable database returns [false],
    without throwing, and removes nothing, and the DELETE handler reports
    that [false] as 404 "Todo not found"; for one outside the range the
    call throws and the handler answers 500 "Failed to delete todo".  The
    store is left as it was in both cases.  After a delete of an id of the
    column, existing or not, the id is gone, and a second delete returns
    [false] and leaves the store as the first left it. *)
Theorem delete_missing_returns_false (db : Db) (i : Z) :
  (~ exists_id i db ->
     (inIdColumn i = true ->
        attempt (callReturns true i) (deleteTodo i) db = Some (false, db)) /\
     (inIdColumn i = false ->
        attempt (callReturns true i) (deleteTodo i) db = None) /\
     (forall connected idParam, parseInt idParam = Some i ->
        route_delete (callReturns connected i) db idParam
        = (db, if callReturns connected i
               then mkResponse 404 (Message (lit "Todo not found"))
               else mkResponse 500 (Message (lit "Failed to delete todo"))))) /\
  (inIdColumn i = true ->
   let db1 := snd (deleteTodo i db) in
   attempt (callReturns true i) (deleteTodo i) db = Some (deleteTodo i db) /\
   ~ exists_id i db1 /\
   attempt (callReturns true i) (deleteTodo i) db1 = Some (false, db1)).
Proof.
  split.
  - intros H. split; [|split].
    + intros Hr. unfold attempt. rewrite callReturns_connected, Hr.
      now rewrite (deleteTodo_missing_eq i db H).
    + intros Hr. unfold attempt. now rewrite callReturns_connected, Hr.
    + intros connected idParam Hp. now apply route_delete_missing.
  - intros Hr db1.
    assert (Hm : ~ exists_id i db1)
      by (unfold exists_id; simpl; apply deleted_missing).
    unfold attempt. rewrite callReturns_connected, Hr.
    split; [reflexivity|]. split; [exact Hm|].
    now rewrite (deleteTodo_missing_eq i db1 Hm).
Qed.

Lemma delete_missing_returns_false_witness :
  ~ exists_id 7 sampleDb /\
  attempt (callReturns true 7) (deleteTodo 7) sampleDb
    = Some (false, sampleDb) /\
  route_delete (callReturns true 7) sampleDb (lit "7")
    = (sampleDb, mkResponse 404 (Message (lit "Todo not found"))).
Proof.
  assert (H : ~ exists_id 7 sampleDb).
  { unfold exists_id. simpl. intros [E|[E|[E|[]]]]; discriminate E. }
  destruct (proj1 (delete_missing_returns_false sampleDb 7) H)
    as (H1 & _ & H3).
  split; [exact H|]. split.
  - exact (H1 eq_refl).
  - exact (H3 true (lit "7") eq_refl).
Defined.

(** ** The table invariant *)

Lemma wf_emptyDb : wf emptyDb.
Proof. split; simpl; constructor. Qed.

Lemma wf_fresh (db : Db) : wf db -> ~ exists_id (nextId db) db.
Proof.
  intros [_ Hlt] Hin. unfold exists_id in Hin.
  apply in_map_iff in Hin as (t & Ht & Hin).
  rewrite Forall_forall in Hlt. specialize (Hlt t Hin). lia.
Qed.

Lemma wf_createTodo (values : InsertTodo) (now : Z) (db : Db) :
  wf db -> wf (snd (createTodo values now db)).
Proof.
  intros Hwf. pose proof (wf_fresh db Hwf) as Hfresh.
  destruct Hwf as [Hnd Hlt]. split; simpl.
  - rewrite map_app. simpl. apply NoDup_app; [exact Hnd| |].
    + constructor; [intros []|constructor].
    + intros a Ha [<-|[]]. now apply Hfresh.
  - apply Forall_app. split.
    + eapply Forall_impl; [|exact Hlt]. simpl. intros; lia.
    + constructor; [simpl; lia|constructor].
Qed.

Lemma setColumns_ids (i : Z) (u : UpdateTodo) (now : Z) (l : list Todo) :
  map id (map (fun t => if eqId i t then setColumns u now t else t) l)
  = map id l.
Proof.
  rewrite map_map. apply map_ext. intros t. now destruct (eqId i t).
Qed.

Lemma wf_updateTodo (i : Z) (u : UpdateTodo) (now : Z) (db : Db) :
  wf db -> wf (snd (updateTodo i u now db)).
Proof.
  intros [Hnd Hlt]. split; simpl.
  - now rewrite setColumns_ids.
  - apply Forall_map. eapply Forall_impl; [|exact Hlt].
    intros t Ht. now destruct (eqId i t).
Qed.

Lemma NoDup_ids_filter (f : Todo -> bool) (l : list Todo) :
  NoDup (map id l) -> NoDup (map id (filter f l)).
Proof.
  induction l as [|t l IH]; simpl; intros H; [constructor|].
  inversion H as [|? ? Hnotin Hnd]; subst.
  destruct (f t); simpl; [|now apply IH].
  constructor; [|now apply IH].
  intros Hin. apply Hnotin.
  apply in_map_iff in Hin as (r & Hr & Hin).
  apply filter_In in Hin as [Hin _].
  apply in_map_iff. now exists r.
Qed.

Lemma wf_deleteTodo (i : Z) (db : Db) :
  wf db -> wf (snd (deleteTodo i db)).
Proof.
  intros [Hnd Hlt]. split; simpl.
  - now apply NoDup_ids_filter.
  - rewrite Forall_forall in *. intros t Ht.
    apply filter_In in Ht as [Ht _]. now apply Hlt.
Qed.

(** ** Claim C2 *)

Lemma specInsertTodoSchema_text (fields : list (jsstring * json))
  (s : jsstring) :
  field (lit "text") fields = Some (JStr s) -> trim s <> [] ->
  specInsertTodoSchema (JObj fields) = Success (mkInsertTodo s).
Proof.
  intros Hf Hs. unfold specInsertTodoSchema. rewrite Hf.
  destruct (trim s); [contradiction|reflexivity].
Qed.

Lemma wf_sampleDb : wf sampleDb.
Proof.
  split; simpl.
  - repeat constructor; simpl; intros H;
      repeat (destruct H as [H|H]; [discriminate H|]); exact H.
  - repeat constructor.
Qed.

(** C2, as the spec states it, fails on a text that is not empty but made
    of white space only: a POST of three spaces is answered 400 and no
    record is stored. *)
Lemma create_blank_text_rejected :
  lit "   " <> [] /\
  route_post specInsertTodoSchema true sampleDb
    (JObj [(lit "text", JStr (lit "   "))]) 5000
  = (sampleDb,
     mkResponse 400
       (Message (fromZodError (lit "text: must not be empty")))).
Proof. split; [discriminate|reflexivity]. Qed.

(** C2 (amended): for every text that is not empty after trimming, the
    create operation answers 201 with a record whose id no existing task
    has, with [completed = false] and [createdAt = updatedAt]; the record
    is appended to the table, where ids stay unique. *)
Theorem create_fresh_record (db : Db) (fields : list (jsstring * json))
  (s : jsstring) (now : Z) :
  wf db ->
  field (lit "text") fields = Some (JStr s) ->
  trim s <> [] ->
  exists t db',
    route_post specInsertTodoSchema true db (JObj fields) now
      = (db', mkResponse 201 (OneTodo t)) /\
    (exists values, createTodo values now db = (t, db')) /\
    ~ exists_id (id t) db /\
    completed t = false /\
    createdAt t = updatedAt t /\
    rows db' = rows db ++ [t] /\
    wf db'.
Proof.
  intros Hwf Hf Hs.
  exists (insertDefaults (mkInsertTodo s) now db).
  exists (snd (createTodo (mkInsertTodo s) now db)).
  unfold route_post. rewrite (specInsertTodoSchema_text fields s Hf Hs).
  split; [reflexivity|]. split; [now exists (mkInsertTodo s)|].
  split; [now apply wf_fresh|]. repeat split.
  - now apply wf_createTodo.
  - now apply wf_createTodo.
Qed.

Lemma create_fresh_record_witness :
  exists t db',
    route_post specInsertTodoSchema true sampleDb
      (JObj [(lit "text", JStr (lit "Buy eggs"))]) 5000
      = (db', mkResponse 201 (OneTodo t)) /\
    (exists values, createTodo values 5000 sampleDb = (t, db')) /\
    ~ exists_id (id t) sampleDb /\
    completed t = false /\
    createdAt t = updatedAt t /\
    rows db' = rows sampleDb ++ [t] /\
    wf db'.
Proof.
  assert (Hs : trim (lit "Buy eggs") <> []) by discriminate.
  exact (create_fresh_record sampleDb
           [(lit "text", JStr (lit "Buy eggs"))] (lit "Buy eggs")
           5000 wf_sampleDb eq_refl Hs).
Defined.

Example create_on_sampleDb :
  route_post specInsertTodoSchema true sampleDb
    (JObj [(lit "text", JStr (lit "Buy eggs"))]) 5000
  = ({| rows := [buyMilk; walkDog; payRent;
                 mkTodo 4 (lit "Buy eggs") false 5000 5000];
        nextId := 5 |},
     mkResponse 201 (OneTodo (mkTodo 4 (lit "Buy eggs") false 5000 5000))).
Proof. reflexivity. Qed.

(** ** Updating an existing task *)

Lemma getTodo_exists (i : Z) (db : Db) (t : Todo) :
  fst (getTodo i db) = Some t ->
  In t (rows db) /\ id t = i /\ exists_id i db.
Proof.
  unfold getTodo, exists_id. simpl. intros H.
  destruct (filter (eqId i) (rows db)) as [|r l] eqn:E; [discriminate|].
  injection H as ->.
  assert (Hin : In t (filter (eqId i) (rows db))) by (rewrite E; now left).
  apply filter_In in Hin as [Hin Hid]. apply eqId_true in Hid.
  repeat split; trivial. apply in_map_iff. now exists t.
Qed.

Lemma exists_getTodo (i : Z) (db : Db) :
  exists_id i db -> exists t, fst (getTodo i db) = Some t.
Proof.
  unfold exists_id, getTodo. simpl. intros H.
  apply in_map_iff in H as (t & Ht & Hin).
  assert (Hf : In t (filter (eqId i) (rows db)))
    by (apply filter_In; split; [exact Hin|now apply eqId_true]).
  destruct (filter (eqId i) (rows db)) as [|r l]; [destruct Hf|].
  now exists r.
Qed.

Lemma where_after_set (i : Z) (u : UpdateTodo) (now : Z) (l : list Todo) :
  filter (eqId i) (map (fun t => if eqId i t then setColumns u now t else t) l)
  = map (setColumns u now) (filter (eqId i) l).
Proof.
  induction l as [|t l IH]; simpl; [reflexivity|].
  destruct (eqId i t) eqn:E; simpl.
  - unfold eqId in *. simpl. rewrite E. simpl. now f_equal.
  - rewrite E. exact IH.
Qed.

Lemma updateTodo_returns (i : Z) (u : UpdateTodo) (now : Z) (db : Db)
  (t : Todo) :
  fst (getTodo i db) = Some t ->
  fst (updateTodo i u now db) = Some (setColumns u now t).
Proof.
  unfold getTodo, updateTodo. simpl.
  destruct (filter (eqId i) (rows db)); [discriminate|].
  simpl. now intros [= ->].
Qed.

Lemma getTodo_after_update (i : Z) (u : UpdateTodo) (now : Z) (db : Db)
  (t : Todo) :
  fst (getTodo i db) = Some t ->
  fst (getTodo i (snd (updateTodo i u now db))) = Some (setColumns u now t).
Proof.
  intros H. unfold getTodo. simpl. rewrite where_after_set.
  exact (updateTodo_returns i u now db t H).
Qed.

(** The rows that [WHERE id = i] does not select stay as they are, in
    place. *)
Lemma updateTodo_frame (i : Z) (u : UpdateTodo) (now : Z) (db : Db)
  (k : nat) (r : Todo) :
  nth_error (rows db) k = Some r -> id r <> i ->
  nth_error (rows (snd (updateTodo i u now db))) k = Some r.
Proof.
  intros Hk Hne. simpl. rewrite nth_error_map, Hk. simpl.
  apply eqId_false in Hne. now rewrite Hne.
Qed.

Section RoutesFacts.
Variable insertTodoSchema : json -> SafeParse InsertTodo.
Variable updateTodoSchema : json -> SafeParse UpdateTodo.

Lemma route_put_existing (db : Db) (idParam : jsstring) (body : json)
  (now i : Z) (data : UpdateTodo) (t : Todo) :
  parseInt idParam = Some i ->
  updateTodoSchema body = Success data ->
  fst (getTodo i db) = Some t ->
  route_put updateTodoSchema true db idParam body now
  = (snd (updateTodo i data now db),
     mkResponse 200 (OneTodo (setColumns data now t))).
Proof.
  intros Hp Hs Hg. unfold route_put, attempt. rewrite Hp, Hs.
  pose proof (updateTodo_returns i data now db t Hg) as Hr.
  destruct (updateTodo i data now db) as [res db'].
  simpl in Hr. now subst res.
Qed.

Lemma route_put_missing (db : Db) (idParam : jsstring) (body : json)
  (now i : Z) (data : UpdateTodo) :
  parseInt idParam = Some i ->
  updateTodoSchema body = Success data ->
  ~ exists_id i db ->
  route_put updateTodoSchema true db idParam body now
  = (db, mkResponse 404 (Message (lit "Todo not found"))).
Proof.
  intros Hp Hs Hm. unfold route_put, attempt.
  now rewrite Hp, Hs, (updateTodo_missing_eq i data now db Hm).
Qed.

(** A PUT that is not answered with 200 leaves the table as it was. *)
Lemma route_put_error_frame (up : bool) (db : Db) (idParam : jsstring)
  (body : json) (now : Z) :
  status (snd (route_put updateTodoSchema up db idParam body now)) <> 200 ->
  fst (route_put updateTodoSchema up db idParam body now) = db.
Proof.
  unfold route_put, attempt.
  destruct (parseInt idParam) as [i|]; [|reflexivity].
  destruct (updateTodoSchema body) as [data|e]; [|reflexivity].
  destruct up; [|reflexivity].
  destruct (updateTodo i data now db) as [[t|] db'] eqn:E; simpl.
  - intros H. now elim H.
  - intros _. destruct (in_dec Z.eq_dec i (map id (rows db))) as [Hin|Hm].
    + apply exists_getTodo in Hin as [t Ht].
      pose proof (updateTodo_returns i data now db t Ht) as Hr.
      rewrite E in Hr. discriminate.
    + rewrite (updateTodo_missing_eq i data now db Hm) in E.
      now injection E as <-.
Qed.
End RoutesFacts.

(** ** Claim C3 *)

(** C3: an update of an existing task that supplies only [completed] returns
    the task with [completed] set to the supplied value and [updatedAt]
    refreshed, its [id], [text] and [createdAt] being those it had; a
    later read of that id gives the same record; every row with another id
    is unchanged, in place, and no row is added or removed.  A PUT whose
    body the schema reads as an update of [completed] alone answers 200
    with that record. *)
Theorem update_completed_only (db : Db) (i : Z) (b : bool) (now : Z)
  (t : Todo) :
  fst (getTodo i db) = Some t ->
  let t' := mkTodo (id t) (text t) b (createdAt t) now in
  let db' := snd (updateTodo i (mkUpdateTodo None (Some b)) now db) in
  fst (updateTodo i (mkUpdateTodo None (Some b)) now db) = Some t' /\
  fst (getTodo i db') = Some t' /\
  nextId db' = nextId db /\
  length (rows db') = length (rows db) /\
  (forall k r, nth_error (rows db) k = Some r -> id r <> i ->
               nth_error (rows db') k = Some r) /\
  (forall updateTodoSchema idParam body,
     parseInt idParam = Some i ->
     updateTodoSchema body = Success (mkUpdateTodo None (Some b)) ->
     route_put updateTodoSchema true db idParam body now
       = (db', mkResponse 200 (OneTodo t'))).
Proof.
  intros Hg t' db'. split; [|split; [|split; [|split; [|split]]]].
  - exact (updateTodo_returns i _ now db t Hg).
  - exact (getTodo_after_update i _ now db t Hg).
  - reflexivity.
  - subst db'. simpl. now rewrite length_map.
  - intros k r Hk Hne. now apply updateTodo_frame.
  - intros schema idParam body Hp Hs.
    exact (route_put_existing schema db idParam body now i _ t Hp Hs Hg).
Qed.

Lemma update_completed_only_witness :
  fst (getTodo 1 sampleDb) = Some buyMilk /\
  fst (updateTodo 1 (mkUpdateTodo None (Some true)) 3000 sampleDb)
    = Some (mkTodo 1 (lit "Buy milk") true 1000 3000) /\
  rows (snd (updateTodo 1 (mkUpdateTodo None (Some true)) 3000 sampleDb))
    = [mkTodo 1 (lit "Buy milk") true 1000 3000; walkDog; payRent].
Proof.
  split; [reflexivity|]. split.
  - exact (proj1 (update_completed_only sampleDb 1 true 3000 buyMilk
                    eq_refl)).
  - reflexivity.
Defined.

(** What the view sends when a task is toggled: an update of that task with
    [completed] flipped and nothing else. *)
Lemma handleToggleComplete_sends (todo : Todo) (st : View.State) :
  View.handleToggleComplete todo st
  = (st, [View.updateTodoMutation (Some (id todo))
            (View.mkUpdates None (Some (negb (completed todo))))]).
Proof. reflexivity. Qed.

(** ** Claim C9 *)

(** C9: when the update schema accepts the empty object as an update with no
    field, a PUT of [{}] on an existing task is answered 200 with the task
    whose [updatedAt] is refreshed and whose [id], [text], [completed] and
    [createdAt] are unchanged, and that is the record then stored. *)
Theorem update_empty_refreshes
  (updateTodoSchema : json -> SafeParse UpdateTodo)
  (db : Db) (idParam : jsstring) (i now : Z) (t : Todo) :
  updateTodoSchema (JObj []) = Success (mkUpdateTodo None None) ->
  parseInt idParam = Some i ->
  fst (getTodo i db) = Some t ->
  let t' := mkTodo (id t) (text t) (completed t) (createdAt t) now in
  let db' := snd (updateTodo i (mkUpdateTodo None None) now db) in
  route_put updateTodoSchema true db idParam (JObj []) now
    = (db', mkResponse 200 (OneTodo t')) /\
  fst (getTodo i db') = Some t' /\
  (forall k r, nth_error (rows db) k = Some r -> id r <> i ->
               nth_error (rows db') k = Some r).
Proof.
  intros Hs Hp Hg t' db'. repeat split.
  - exact (route_put_existing updateTodoSchema db idParam (JObj []) now i
             _ t Hp Hs Hg).
  - exact (getTodo_after_update i _ now db t Hg).
  - intros k r Hk Hne. now apply updateTodo_frame.
Qed.

Lemma update_empty_refreshes_witness :
  route_put specUpdateTodoSchema true sampleDb (lit "2") (JObj []) 3000
    = ({| rows := [buyMilk; mkTodo 2 (lit "Walk dog") true 2000 3000; payRent];
          nextId := 4 |},
       mkResponse 200 (OneTodo (mkTodo 2 (lit "Walk dog") true 2000 3000))).
Proof.
  exact (proj1 (update_empty_refreshes specUpdateTodoSchema sampleDb
                  (lit "2") 2 3000 walkDog eq_refl eq_refl eq_refl)).
Defined.

(** ** Claim C4 *)

Lemma route_put_missing_any
  (updateTodoSchema : json -> SafeParse UpdateTodo)
  (db : Db) (idParam : jsstring) (body : json) (now i : Z)
  (data : UpdateTodo) (connected : bool) :
  parseInt idParam = Some i ->
  updateTodoSchema body = Success data ->
  ~ exists_id i db ->
  route_put updateTodoSchema (callReturns connected i) db idParam body now
  = (db, if callReturns connected i
         then mkResponse 404 (Message (lit "Todo not found"))
         else mkResponse 500 (Message (lit "Failed to update todo"))).
Proof.
  intros Hp Hs Hm. unfold route_put, attempt. rewrite Hp, Hs.
  destruct (callReturns connected i); [|reflexivity].
  now rewrite (updateTodo_missing_eq i data now db Hm).
Qed.

(** C4, as the spec states it, fails on an id outside the integer [id]
    column: no task has id 2147483648, and an update of it, with a body
    the schema accepts, makes the storage call throw and is answered 500
    "Failed to update todo", not 404. *)
Lemma update_missing_out_of_range_is_500 :
  ~ exists_id 2147483648 sampleDb /\
  parseInt (lit "2147483648") = Some 2147483648 /\
  specUpdateTodoSchema (JObj [(lit "completed", JBool true)])
    = Success (mkUpdateTodo None (Some true)) /\
  attempt (callReturns true 2147483648)
    (updateTodo 2147483648 (mkUpdateTodo None (Some true)) 3000) sampleDb
    = None /\
  route_put specUpdateTodoSchema (callReturns true 2147483648) sampleDb
    (lit "2147483648") (JObj [(lit "completed", JBool true)]) 3000
  = (sampleDb, mkResponse 500 (Message (lit "Failed to update todo"))).
Proof.
  split.
  - unfold exists_id. simpl. intros [E|[E|[E|[]]]]; discriminate E.
  - repeat split.
Qed.

(** C4 (amended): an update of an id that references no existing task and
    lies in the range of the integer [id] column, with a body the schema
    accepts and the database reachable, is answered 404 "Todo not found",
    the storage call returning no record; for an id outside the range,
    or an unreachable database, the storage call throws and the answer is
    500 "Failed to update todo".  Whatever the body and whether or not the
    call returns, the table is left as it was and the answer is an
    error. *)
Theorem update_missing_not_found
  (updateTodoSchema : json -> SafeParse UpdateTodo)
  (db : Db) (idParam : jsstring) (i : Z) :
  parseInt idParam = Some i ->
  ~ exists_id i db ->
  (forall connected body data now,
     updateTodoSchema body = Success data ->
     route_put updateTodoSchema (callReturns connected i) db idParam body now
     = (db, if callReturns connected i
            then mkResponse 404 (Message (lit "Todo not found"))
            else mkResponse 500 (Message (lit "Failed to update todo")))) /\
  (forall data now,
     attempt (callReturns true i) (updateTodo i data now) db
     = if inIdColumn i then Some (None, db) else None) /\
  (forall up body now,
     fst (route_put updateTodoSchema up db idParam body now) = db /\
     isError (snd (route_put updateTodoSchema up db idParam body now)) = true).
Proof.
  intros Hp Hm. split; [|split].
  - intros connected body data now Hs.
    now apply route_put_missing_any with (data := data).
  - intros data now. unfold attempt. rewrite callReturns_connected.
    destruct (inIdColumn i); [|reflexivity].
    now rewrite (updateTodo_missing_eq i data now db Hm).
  - intros up body now. unfold route_put, attempt. rewrite Hp.
    destruct (updateTodoSchema body) as [data|e]; [|split; reflexivity].
    destruct up; [|split; reflexivity].
    rewrite (updateTodo_missing_eq i data now db Hm). split; reflexivity.
Qed.

Lemma update_missing_not_found_witness :
  route_put specUpdateTodoSchema (callReturns true 9) sampleDb (lit "9")
    (JObj [(lit "completed", JBool true)]) 3000
  = (sampleDb, mkResponse 404 (Message (lit "Todo not found"))).
Proof.
  assert (Hm : ~ exists_id 9 sampleDb).
  { unfold exists_id. simpl. intros [H|[H|[H|[]]]]; discriminate H. }
  exact (proj1 (update_missing_not_found specUpdateTodoSchema sampleDb
                  (lit "9") 9 eq_refl Hm)
           true (JObj [(lit "completed", JBool true)])
           (mkUpdateTodo None (Some true)) 3000 eq_refl).
Defined.

(** ** Claim C5 *)

Section OrderByFacts.
Context {A : Type} (key : A -> Z).

Lemma insertDesc_perm (t : A) (l : list A) :
  Permutation (t :: l) (insertDesc key t l).
Proof.
  induction l as [|x r IH]; simpl; [reflexivity|].
  destruct (key x <? key t); [reflexivity|].
  rewrite perm_swap. now apply perm_skip.
Qed.

Lemma orderByDesc_perm (l : list A) : Permutation l (orderByDesc key l).
Proof.
  induction l as [|x r IH]; simpl; [constructor|].
  rewrite <- insertDesc_perm. now apply perm_skip.
Qed.

Lemma insertDesc_sorted (t : A) (l : list A) :
  StronglySorted (descBy key) l ->
  StronglySorted (descBy key) (insertDesc key t l).
Proof.
  induction 1 as [|x r Hs IH Hx]; simpl.
  - repeat constructor.
  - destruct (key x <? key t) eqn:E.
    + apply Z.ltb_lt in E. constructor; [now constructor|].
      constructor; [unfold descBy; lia|].
      eapply Forall_impl; [|exact Hx]. unfold descBy. intros; lia.
    + apply Z.ltb_ge in E. constructor; [exact IH|].
      eapply Permutation_Forall; [apply insertDesc_perm|].
      constructor; [exact E|exact Hx].
Qed.

Lemma orderByDesc_sorted (l : list A) :
  StronglySorted (descBy key) (orderByDesc key l).
Proof.
  induction l as [|x r IH]; simpl; [constructor|].
  now apply insertDesc_sorted.
Qed.
End OrderByFacts.

(** C5: for every state of the store, listing returns the persisted records,
    each as often as it is stored and no other, in an order where every
    record's [createdAt] is at least that of every record after it; the
    store is not changed, and the handler answers 200 with that list. *)
Theorem getAllTodos_newest_first (db : Db) :
  Permutation (rows db) (fst (getAllTodos db)) /\
  StronglySorted (descBy createdAt) (fst (getAllTodos db)) /\
  snd (getAllTodos db) = db /\
  route_get true db = (db, mkResponse 200 (Todos (fst (getAllTodos db)))).
Proof.
  repeat split.
  - apply orderByDesc_perm.
  - apply orderByDesc_sorted.
Qed.

Example getAllTodos_sampleDb :
  fst (getAllTodos sampleDb) = [walkDog; payRent; buyMilk].
Proof. reflexivity. Qed.

(** ** Claim C6 *)

(** C6: the view for "active" holds exactly the fetched tasks with
    [completed = false], so none with [completed = true]; the view for
    "completed" exactly those with [completed = true]; the view for "all"
    is the fetched list. *)
Theorem getFilteredTodos_views (todos : list Todo) :
  Forall (fun t => completed t = false)
         (View.getFilteredTodos View.Factive todos) /\
  Forall (fun t => completed t = true)
         (View.getFilteredTodos View.Fcompleted todos) /\
  View.getFilteredTodos View.Fall todos = todos /\
  (forall t, In t (View.getFilteredTodos View.Factive todos)
             <-> In t todos /\ completed t = false) /\
  (forall t, In t (View.getFilteredTodos View.Fcompleted todos)
             <-> In t todos /\ completed t = true).
Proof.
  assert (Ha : forall t, In t (View.getFilteredTodos View.Factive todos)
                         <-> In t todos /\ completed t = false).
  { intros t. simpl. rewrite filter_In. now rewrite negb_true_iff. }
  assert (Hc : forall t, In t (View.getFilteredTodos View.Fcompleted todos)
                         <-> In t todos /\ completed t = true).
  { intros t. simpl. now rewrite filter_In. }
  split; [|split; [|split; [reflexivity|split; assumption]]].
  - apply Forall_forall. intros t Ht. now apply Ha in Ht.
  - apply Forall_forall. intros t Ht. now apply Hc in Ht.
Qed.

(** ** Claim C7 *)

(** C7: for every fetched list, pending + completed = total, where completed
    counts the tasks with [completed = true], total is the length of the
    list, and pending, never negative, counts the tasks of the "active"
    view. *)
Theorem counts_add_up (todos : list Todo) :
  View.pendingTodos todos + View.completedTodos todos = View.totalTodos todos /\
  View.completedTodos todos
    = Z.of_nat (length (View.getFilteredTodos View.Fcompleted todos)) /\
  View.pendingTodos todos
    = Z.of_nat (length (View.getFilteredTodos View.Factive todos)) /\
  0 <= View.pendingTodos todos.
Proof.
  unfold View.pendingTodos, View.completedTodos, View.totalTodos. simpl.
  pose proof (filter_length (fun todo => completed todo) todos) as H.
  cbv beta in H. repeat split; lia.
Qed.

(* ================================================================== *)
(** * Facts about the view                                             *)
(* ================================================================== *)

(** ** [trim] *)

Lemma trimStart_nil_iff (s : jsstring) :
  trimStart s = [] <-> forallb isWhiteSpace s = true.
Proof.
  induction s as [|c r IH]; simpl; [tauto|].
  destruct (isWhiteSpace c); simpl; [exact IH|].
  split; discriminate.
Qed.

Lemma trimStart_head (s : jsstring) (c : N) (r : jsstring) :
  trimStart s = c :: r -> isWhiteSpace c = false.
Proof.
  induction s as [|x s IH]; simpl; [discriminate|].
  destruct (isWhiteSpace x) eqn:E; [exact IH|].
  now intros [= <- _].
Qed.

(** [trimStart] removes a prefix of white space, and nothing else. *)
Lemma trimStart_split (s : jsstring) :
  exists p, s = p ++ trimStart s /\ forallb isWhiteSpace p = true.
Proof.
  induction s as [|c r (p & Hp & Hws)]; simpl.
  - now exists [].
  - destruct (isWhiteSpace c) eqn:E.
    + exists (c :: p). simpl. rewrite E, Hws. split; [now f_equal|reflexivity].
    + now exists [].
Qed.

Lemma forallb_rev {A : Type} (f : A -> bool) (l : list A) :
  forallb f (rev l) = forallb f l.
Proof.
  induction l as [|x l IH]; simpl; [reflexivity|].
  rewrite forallb_app, IH. simpl. rewrite andb_true_r. apply andb_comm.
Qed.

(** A draft is empty after trimming exactly when it is made of white space
    only. *)
Lemma trim_nil_iff (s : jsstring) :
  trim s = [] <-> forallb isWhiteSpace s = true.
Proof.
  unfold trim, trimEnd. rewrite <- trimStart_nil_iff. split.
  - intros H. apply (f_equal (@rev N)) in H. rewrite rev_involutive in H.
    simpl in H. apply trimStart_nil_iff in H. rewrite forallb_rev in H.
    destruct (trimStart s) as [|c r] eqn:E; [reflexivity|].
    apply trimStart_head in E. simpl in H. now rewrite E in H.
  - now intros ->.
Qed.

(** [trim] keeps the text between the white space at both ends. *)
Lemma trim_split (s : jsstring) :
  exists p q, s = p ++ trim s ++ q /\
              forallb isWhiteSpace p = true /\ forallb isWhiteSpace q = true.
Proof.
  destruct (trimStart_split s) as (p & Hp & Hws).
  destruct (trimStart_split (rev (trimStart s))) as (q & Hq & Hwsq).
  exists p, (rev q). repeat split; trivial.
  - unfold trim, trimEnd. rewrite <- rev_app_distr, <- Hq, rev_involutive.
    exact Hp.
  - now rewrite forallb_rev.
Qed.

Lemma falsy_nil (s : jsstring) : falsy s = true <-> s = [].
Proof. destruct s; simpl; split; congruence. Qed.

(** ** Claim C8 *)

(** C8: confirming an edit whose draft is not empty after trimming fires one
    update, of the task being edited, carrying the trimmed draft as [text]
    and nothing else, and leaves edit mode, which the success of the update
    does not change; confirming a draft that is empty after trimming fires
    nothing and changes nothing; cancelling fires nothing, leaves edit mode
    and drops the draft. *)
Theorem edit_confirm_or_cancel (st : View.State) :
  (trim (View.editingText st) <> [] ->
     snd (View.saveEditing st)
       = [View.updateTodoMutation (View.editingId st)
            (View.mkUpdates (Some (trim (View.editingText st))) None)] /\
     View.editingId (fst (View.saveEditing st)) = None /\
     View.editingId (View.updateTodo_onSuccess (fst (View.saveEditing st)))
       = None) /\
  (trim (View.editingText st) = [] -> View.saveEditing st = (st, [])) /\
  (snd (View.cancelEditing st) = [] /\
   View.editingId (fst (View.cancelEditing st)) = None /\
   View.editingText (fst (View.cancelEditing st)) = []).
Proof.
  split; [|split].
  - intros H. unfold View.saveEditing.
    destruct (falsy (trim (View.editingText st))) eqn:E.
    + apply falsy_nil in E. contradiction.
    + repeat split.
  - intros H. unfold View.saveEditing. now rewrite H.
  - repeat split.
Qed.

Lemma edit_confirm_or_cancel_witness :
  trim (View.editingText editingMilk) <> [] /\
  snd (View.saveEditing editingMilk)
    = [View.updateTodoMutation (Some 1)
         (View.mkUpdates (Some (lit "Buy oat milk")) None)].
Proof.
  assert (H : trim (View.editingText editingMilk) <> []) by discriminate.
  split; [exact H|].
  exact (proj1 (proj1 (edit_confirm_or_cancel editingMilk) H)).
Defined.

(* ================================================================== *)
(** * Facts about [parseInt] and the id parameter                      *)
(* ================================================================== *)

Lemma decimalDigit_radix (c : N) :
  isDecimalDigit c = true -> radixDigit 10 c = Some (Z.of_N c - 48).
Proof.
  unfold isDecimalDigit, radixDigit, digitValue. intros H. rewrite H.
  apply andb_true_iff in H as [H1 H2].
  apply N.leb_le in H1, H2.
  destruct (Z.of_N c - 48 <? 10) eqn:E; [reflexivity|].
  apply Z.ltb_ge in E. lia.
Qed.

Lemma decimalDigit_not_space (c : N) :
  isDecimalDigit c = true -> isWhiteSpace c = false.
Proof.
  unfold isDecimalDigit, isWhiteSpace. intros H.
  apply andb_true_iff in H as [H1 H2]. apply N.leb_le in H1, H2.
  repeat (apply orb_false_iff; split);
    try (apply N.eqb_neq; lia).
  apply andb_false_iff. left. apply N.leb_gt. lia.
Qed.

(** The digits of a run of decimal digits are taken whole, up to the first
    code unit that is not one. *)
Lemma takeDigits_run (ds : jsstring) (rest : jsstring) :
  forallb isDecimalDigit ds = true ->
  match rest with [] => True | c :: _ => radixDigit 10 c = None end ->
  takeDigits 10 (ds ++ rest) = map (fun c => Z.of_N c - 48) ds.
Proof.
  intros Hds Hrest. induction ds as [|d ds IH]; simpl.
  - destruct rest as [|c r]; [reflexivity|]. simpl. now rewrite Hrest.
  - simpl in Hds. apply andb_true_iff in Hds as [Hd Hds].
    rewrite (decimalDigit_radix d Hd). f_equal. now apply IH.
Qed.

(** A run of decimal digits followed by anything that is neither a decimal
    digit nor the [x] of a hexadecimal prefix parses as the run alone. *)
Lemma parseInt_decimal_prefix (ds : jsstring) (rest : jsstring) :
  ds <> [] ->
  forallb isDecimalDigit ds = true ->
  match rest with
  | [] => True
  | c :: _ => radixDigit 10 c = None /\ c <> 120%N /\ c <> 88%N
  end ->
  parseInt (ds ++ rest)
  = Some (digitsValue 10 (map (fun c => Z.of_N c - 48) ds)).
Proof.
  intros Hne Hds Hrest.
  destruct ds as [|d ds]; [contradiction|]. clear Hne.
  pose proof Hds as Hall. simpl in Hds.
  apply andb_true_iff in Hds as [Hd Hds].
  assert (Htake : takeDigits 10 ((d :: ds) ++ rest)
                  = map (fun c => Z.of_N c - 48) (d :: ds)).
  { apply takeDigits_run; [exact Hall|].
    destruct rest; [exact I|tauto]. }
  unfold parseInt.
  replace (trimStart ((d :: ds) ++ rest)) with ((d :: ds) ++ rest)
    by (simpl; now rewrite (decimalDigit_not_space d Hd)).
  assert (Hsign : stripSign ((d :: ds) ++ rest) = (1, (d :: ds) ++ rest)).
  { simpl. unfold isDecimalDigit in Hd.
    apply andb_true_iff in Hd as [H1 H2]. apply N.leb_le in H1, H2.
    destruct (d =? 45)%N eqn:E1; [apply N.eqb_eq in E1; lia|].
    destruct (d =? 43)%N eqn:E2; [apply N.eqb_eq in E2; lia|]. reflexivity. }
  rewrite Hsign.
  assert (Hpre : stripPrefix ((d :: ds) ++ rest) = (10, (d :: ds) ++ rest)).
  { simpl. destruct (ds ++ rest) as [|c1 r] eqn:E; [reflexivity|].
    destruct ((d =? 48)%N && ((c1 =? 120)%N || (c1 =? 88)%N)) eqn:B;
      [|reflexivity].
    exfalso. apply andb_true_iff in B as [_ B].
    assert (Hc1 : c1 = 120%N \/ c1 = 88%N).
    { apply orb_true_iff in B as [B|B]; apply N.eqb_eq in B; tauto. }
    destruct ds as [|d1 ds1]; simpl in E.
    - subst rest. destruct Hrest as (_ & Hx & HX). tauto.
    - injection E as -> _. simpl in Hds.
      apply andb_true_iff in Hds as [Hd1 _]. unfold isDecimalDigit in Hd1.
      apply andb_true_iff in Hd1 as [H1 H2]. apply N.leb_le in H1, H2.
      lia. }
  rewrite Hpre, Htake. simpl map. cbv iota. f_equal.
  apply Z.mul_1_l.
Qed.

(** [parseInt] is [NaN] exactly when, after the leading white space, the
    sign and the hexadecimal prefix, there is no digit of the radix. *)
Lemma parseInt_NaN_iff (s : jsstring) :
  parseInt s = None <->
  match stripPrefix (snd (stripSign (trimStart s))) with
  | (_, []) => True
  | (R, c :: _) => radixDigit R c = None
  end.
Proof.
  unfold parseInt.
  destruct (stripSign (trimStart s)) as [sign s1]. simpl snd.
  destruct (stripPrefix s1) as [R s2].
  destruct s2 as [|c r]; simpl; [tauto|].
  destruct (radixDigit R c); split; intros; congruence.
Qed.

(** The handlers look at the id parameter through [parseInt] only. *)
Lemma route_delete_parseInt (up : bool) (db : Db) (a b : jsstring) :
  parseInt a = parseInt b -> route_delete up db a = route_delete up db b.
Proof. unfold route_delete. now intros ->. Qed.

Lemma route_put_parseInt (updateTodoSchema : json -> SafeParse UpdateTodo)
  (up : bool) (db : Db) (a b : jsstring) (body : json) (now : Z) :
  parseInt a = parseInt b ->
  route_put updateTodoSchema up db a body now
  = route_put updateTodoSchema up db b body now.
Proof. unfold route_put. now intros ->. Qed.

Lemma fromZodError_not_invalid_id (error : jsstring) :
  fromZodError error <> lit "Invalid todo ID".
Proof. unfold fromZodError. cbn. discriminate. Qed.

Lemma route_delete_400_iff (up : bool) (db : Db) (idParam : jsstring) :
  snd (route_delete up db idParam)
    = mkResponse 400 (Message (lit "Invalid todo ID"))
  <-> parseInt idParam = None.
Proof.
  unfold route_delete, attempt.
  destruct (parseInt idParam) as [i|]; [|split; reflexivity].
  split; [|discriminate].
  destruct up; [|discriminate].
  destruct (deleteTodo i db) as [[|] db']; discriminate.
Qed.

Lemma route_put_400_iff (updateTodoSchema : json -> SafeParse UpdateTodo)
  (up : bool) (db : Db) (idParam : jsstring) (body : json) (now : Z) :
  snd (route_put updateTodoSchema up db idParam body now)
    = mkResponse 400 (Message (lit "Invalid todo ID"))
  <-> parseInt idParam = None.
Proof.
  unfold route_put, attempt.
  destruct (parseInt idParam) as [i|]; [|split; reflexivity].
  split; [|discriminate].
  destruct (updateTodoSchema body) as [data|e].
  - destruct up; [|discriminate].
    destruct (updateTodo i data now db) as [[t|] db']; discriminate.
  - cbn [snd]. intros H. exfalso.
    apply (fromZodError_not_invalid_id e). congruence.
Qed.

(** ** Claim C10 *)

(** C10, as stated, fails on ids that begin with [0x]: ["0xzz"] is the
    numeric prefix ["0"] followed by garbage, and both handlers reject it
    with 400 "Invalid todo ID" where the claim has it accepted as 0;
    ["0x1A"] is accepted as 26, not as its decimal prefix 0. *)
Lemma id_0x_not_decimal_prefix :
  lit "0xzz" = lit "0" ++ lit "xzz" /\
  parseInt (lit "0") = Some 0 /\
  route_delete true sampleDb (lit "0xzz")
    = (sampleDb, mkResponse 400 (Message (lit "Invalid todo ID"))) /\
  route_put specUpdateTodoSchema true sampleDb (lit "0xzz") (JObj []) 3000
    = (sampleDb, mkResponse 400 (Message (lit "Invalid todo ID"))) /\
  parseInt (lit "0x1A") = Some 26.
Proof. repeat split. Qed.

Lemma notDecimal_radix10 (c : N) :
  isDecimalDigit c = false -> radixDigit 10 c = None.
Proof.
  unfold radixDigit, digitValue, isDecimalDigit. intros ->.
  destruct ((97 <=? c)%N && (c <=? 122)%N) eqn:E1.
  - apply andb_true_iff in E1 as [H1 _]. apply N.leb_le in H1.
    destruct (Z.of_N c - 97 + 10 <? 10) eqn:E; [|reflexivity].
    apply Z.ltb_lt in E. lia.
  - destruct ((65 <=? c)%N && (c <=? 90)%N) eqn:E2; [|reflexivity].
    apply andb_true_iff in E2 as [H1 _]. apply N.leb_le in H1.
    destruct (Z.of_N c - 65 + 10 <? 10) eqn:E; [|reflexivity].
    apply Z.ltb_lt in E. lia.
Qed.

Lemma parseInt_decimal_core (ds : jsstring) (rest : jsstring) :
  ds <> [] ->
  forallb isDecimalDigit ds = true ->
  match rest with [] => True | c :: _ => radixDigit 10 c = None end ->
  stripPrefix (ds ++ rest) = (10, ds ++ rest) ->
  parseInt (ds ++ rest)
  = Some (digitsValue 10 (map (fun c => Z.of_N c - 48) ds)).
Proof.
  intros Hne Hds Hrest Hpre.
  pose proof (takeDigits_run ds rest Hds Hrest) as Htake.
  destruct ds as [|d ds]; [contradiction|].
  simpl in Hds. apply andb_true_iff in Hds as [Hd Hds].
  unfold parseInt.
  replace (trimStart ((d :: ds) ++ rest)) with ((d :: ds) ++ rest)
    by (simpl; now rewrite (decimalDigit_not_space d Hd)).
  assert (Hsign : stripSign ((d :: ds) ++ rest) = (1, (d :: ds) ++ rest)).
  { simpl. unfold isDecimalDigit in Hd.
    apply andb_true_iff in Hd as [H1 H2]. apply N.leb_le in H1, H2.
    destruct (d =? 45)%N eqn:E1; [apply N.eqb_eq in E1; lia|].
    destruct (d =? 43)%N eqn:E2; [apply N.eqb_eq in E2; lia|]. reflexivity. }
  rewrite Hsign, Hpre, Htake. simpl map. cbv iota. f_equal.
  apply Z.mul_1_l.
Qed.

Lemma decimalDigit_not_x (c : N) :
  isDecimalDigit c = true -> ((c =? 120) || (c =? 88))%N = false.
Proof.
  unfold isDecimalDigit. intros H.
  apply andb_true_iff in H as [_ H]. apply N.leb_le in H.
  apply orb_false_iff. split; apply N.eqb_neq; lia.
Qed.

(** A run of decimal digits parses as the run alone whatever follows it,
    unless the run is a lone [0] and [x] or [X] follows. *)
Lemma parseInt_decimal_run (ds : jsstring) (rest : jsstring) :
  ds <> [] ->
  forallb isDecimalDigit ds = true ->
  match rest with
  | [] => True
  | c :: _ => isDecimalDigit c = false /\
              (ds = [48%N] -> c <> 120%N /\ c <> 88%N)
  end ->
  parseInt (ds ++ rest)
  = Some (digitsValue 10 (map (fun c => Z.of_N c - 48) ds)).
Proof.
  intros Hne Hds Hrest.
  apply parseInt_decimal_core; trivial.
  - destruct rest as [|c r]; [exact I|].
    now apply notDecimal_radix10.
  - destruct ds as [|d [|d1 ds]]; [contradiction| |].
    + destruct rest as [|c r]; [reflexivity|]. simpl.
      destruct Hrest as [_ Hx].
      destruct (d =? 48)%N eqn:E; [|reflexivity].
      apply N.eqb_eq in E. subst d. destruct (Hx eq_refl) as [H1 H2].
      apply N.eqb_neq in H1, H2. now rewrite H1, H2.
    + simpl in Hds. apply andb_true_iff in Hds as [_ Hds].
      apply andb_true_iff in Hds as [Hd1 _].
      simpl. rewrite (decimalDigit_not_x d1 Hd1).
      now rewrite andb_false_r.
Qed.

Lemma takeDigits_radix_run (R : Z) (hs rest : jsstring) :
  forallb (isRadixDigit R) hs = true ->
  match rest with [] => True | c :: _ => isRadixDigit R c = false end ->
  takeDigits R (hs ++ rest) = takeDigits R hs /\
  (hs <> [] -> takeDigits R hs <> []).
Proof.
  intros Hhs Hrest. induction hs as [|h hs IH]; simpl.
  - split; [|intros H; now elim H].
    destruct rest as [|c r]; [reflexivity|]. simpl.
    unfold isRadixDigit in Hrest.
    destruct (radixDigit R c); [discriminate|reflexivity].
  - simpl in Hhs. apply andb_true_iff in Hhs as [Hh Hhs].
    unfold isRadixDigit in Hh.
    destruct (radixDigit R h) as [v|]; [|discriminate].
    split; [|discriminate]. f_equal. now apply IH.
Qed.

(** After [0x] or [0X] the id is read in radix 16. *)
Lemma parseInt_0x (x : N) (s : jsstring) :
  x = 120%N \/ x = 88%N ->
  parseInt (48%N :: x :: s)
  = match takeDigits 16 s with
    | [] => None
    | ds => Some (digitsValue 16 ds)
    end.
Proof.
  intros [->| ->]; unfold parseInt;
    [change (trimStart (48%N :: 120%N :: s)) with (48%N :: 120%N :: s);
     change (stripSign (48%N :: 120%N :: s)) with (1, 48%N :: 120%N :: s);
     cbv beta iota;
     change (stripPrefix (48%N :: 120%N :: s)) with (16, s)
    |change (trimStart (48%N :: 88%N :: s)) with (48%N :: 88%N :: s);
     change (stripSign (48%N :: 88%N :: s)) with (1, 48%N :: 88%N :: s);
     cbv beta iota;
     change (stripPrefix (48%N :: 88%N :: s)) with (16, s)];
    cbv beta iota; destruct (takeDigits 16 s); trivial;
    f_equal; apply Z.mul_1_l.
Qed.

(** C10 (amended): the update and delete handlers answer 400 "Invalid todo
    ID" exactly when [parseInt] of the id parameter is [NaN].  An id made
    of a run of decimal digits, of value at most 2^53, followed by garbage
    is accepted and handled as the id written by the digits alone
    (["12abc"] as 12), except when the run is a lone [0] and the garbage
    starts with [x] or [X]: after [0x] or [0X] the run of hexadecimal
    digits that follows is read in radix 16 (["0x1A"] as 26), and the id is
    rejected with 400 when no hexadecimal digit follows (["0xzz"]). *)
Theorem invalid_id_exactly_NaN
  (updateTodoSchema : json -> SafeParse UpdateTodo)
  (up : bool) (db : Db) (body : json) (now : Z) :
  (forall idParam,
     (snd (route_put updateTodoSchema up db idParam body now)
        = mkResponse 400 (Message (lit "Invalid todo ID"))
      <-> parseInt idParam = None) /\
     (snd (route_delete up db idParam)
        = mkResponse 400 (Message (lit "Invalid todo ID"))
      <-> parseInt idParam = None)) /\
  (forall ds rest,
     ds <> [] ->
     forallb isDecimalDigit ds = true ->
     match rest with
     | [] => True
     | c :: _ => isDecimalDigit c = false /\
                 (ds = [48%N] -> c <> 120%N /\ c <> 88%N)
     end ->
     digitsValue 10 (map (fun c => Z.of_N c - 48) ds) <= 2 ^ 53 ->
     parseInt (ds ++ rest)
       = Some (digitsValue 10 (map (fun c => Z.of_N c - 48) ds)) /\
     route_put updateTodoSchema up db (ds ++ rest) body now
       = route_put updateTodoSchema up db ds body now /\
     route_delete up db (ds ++ rest) = route_delete up db ds) /\
  (forall x hs rest,
     x = 120%N \/ x = 88%N ->
     forallb (isRadixDigit 16) hs = true ->
     match rest with [] => True | c :: _ => isRadixDigit 16 c = false end ->
     digitsValue 16 (takeDigits 16 hs) <= 2 ^ 53 ->
     (hs <> [] ->
        parseInt (48%N :: x :: hs ++ rest)
        = Some (digitsValue 16 (takeDigits 16 hs))) /\
     (hs = [] ->
        parseInt (48%N :: x :: rest) = None /\
        snd (route_put updateTodoSchema up db (48%N :: x :: rest) body now)
          = mkResponse 400 (Message (lit "Invalid todo ID")) /\
        snd (route_delete up db (48%N :: x :: rest))
          = mkResponse 400 (Message (lit "Invalid todo ID")))) /\
  parseInt (lit "12abc") = Some 12 /\
  parseInt (lit "0x1A") = Some 26 /\
  parseInt (lit "0X1a") = Some 26 /\
  parseInt (lit "0xzz") = None.
Proof.
  split; [|split; [|split; [|repeat split]]].
  - intros idParam. split.
    + apply route_put_400_iff.
    + apply route_delete_400_iff.
  - intros ds rest Hne Hds Hrest _.
    pose proof (parseInt_decimal_run ds rest Hne Hds Hrest) as H1.
    pose proof (parseInt_decimal_prefix ds [] Hne Hds I) as H2.
    rewrite app_nil_r in H2.
    assert (E : parseInt (ds ++ rest) = parseInt ds) by congruence.
    split; [exact H1|]. split.
    + now apply route_put_parseInt.
    + now apply route_delete_parseInt.
  - intros x hs rest Hx Hhs Hrest _.
    destruct (takeDigits_radix_run 16 hs rest Hhs Hrest) as [Ht Hn].
    split.
    + intros Hne. rewrite (parseInt_0x x _ Hx), Ht.
      specialize (Hn Hne). now destruct (takeDigits 16 hs).
    + intros ->. simpl in Ht.
      assert (Hp : parseInt (48%N :: x :: rest) = None)
        by (rewrite (parseInt_0x x _ Hx); simpl; now rewrite Ht).
      split; [exact Hp|]. split.
      * now apply route_put_400_iff.
      * now apply route_delete_400_iff.
Qed.

Lemma invalid_id_exactly_NaN_witness :
  parseInt (lit "12" ++ lit "xyz") = Some 12 /\
  route_delete true sampleDb (lit "2" ++ lit "abc")
    = route_delete true sampleDb (lit "2") /\
  parseInt (48%N :: 120%N :: lit "1A" ++ lit "zz") = Some 26.
Proof.
  pose proof (invalid_id_exactly_NaN specUpdateTodoSchema true sampleDb
                (JObj []) 3000) as (_ & H & Hhex & _).
  split; [|split].
  - refine (proj1 (H (lit "12") (lit "xyz") _ eq_refl _ _)).
    + discriminate.
    + split; [reflexivity|discriminate].
    + vm_compute. discriminate.
  - refine (proj2 (proj2 (H (lit "2") (lit "abc") _ eq_refl _ _))).
    + discriminate.
    + split; [reflexivity|discriminate].
    + vm_compute. discriminate.
  - refine (proj1 (Hhex 120%N (lit "1A") (lit "zz") _ eq_refl eq_refl _) _).
    + now left.
    + vm_compute. discriminate.
    + discriminate.
Defined.

(* ================================================================== *)
(** * Histories of the store                                           *)
(* ================================================================== *)

Lemma wf_step (db : Db) (op : Op) : wf db -> wf (step db op).
Proof.
  destruct op; simpl;
    [apply wf_createTodo|apply wf_updateTodo|apply wf_deleteTodo].
Qed.

(** Every table reached from the empty one keeps [id] a key below the
    sequence. *)
Lemma wf_run (ops : list Op) (db : Db) : wf db -> wf (run ops db).
Proof.
  revert db. induction ops as [|op ops IH]; simpl; intros db H; [exact H|].
  apply IH. now apply wf_step.
Qed.

Lemma wf_history (ops : list Op) : wf (run ops emptyDb).
Proof. apply wf_run, wf_emptyDb. Qed.

(** Deleting an existing id reports a removal, and the id is gone. *)
Lemma deleteTodo_existing (i : Z) (db : Db) :
  exists_id i db ->
  fst (deleteTodo i db) = true /\ ~ exists_id i (snd (deleteTodo i db)).
Proof.
  intros H. split.
  - apply exists_getTodo in H as [t Ht]. unfold getTodo in Ht.
    unfold deleteTodo. simpl in *.
    destruct (filter (eqId i) (rows db)); [discriminate|]. simpl length.
    apply Z.ltb_lt. lia.
  - unfold exists_id. simpl. apply deleted_missing.
Qed.

(** The rows that a delete keeps are those with another id, in order. *)
Lemma deleteTodo_frame (i : Z) (db : Db) (t : Todo) :
  In t (rows (snd (deleteTodo i db))) <-> In t (rows db) /\ id t <> i.
Proof.
  simpl. rewrite filter_In, negb_true_iff. now rewrite eqId_false.
Qed.

(** The walk of the specification: create, toggle, edit, delete. *)
Example buy_milk_walk :
  let db1 := run [OpCreate (mkInsertTodo (lit "Buy milk")) 1000] emptyDb in
  let db2 := run [OpUpdate 1 (mkUpdateTodo None (Some true)) 2000] db1 in
  let db3 :=
    run [OpUpdate 1 (mkUpdateTodo (Some (lit "Buy oat milk")) None) 3000] db2 in
  let db4 := run [OpDelete 1] db3 in
  fst (getAllTodos db1) = [mkTodo 1 (lit "Buy milk") false 1000 1000] /\
  fst (getAllTodos db2) = [mkTodo 1 (lit "Buy milk") true 1000 2000] /\
  View.pendingTodos (fst (getAllTodos db2)) = 0 /\
  View.completedTodos (fst (getAllTodos db2)) = 1 /\
  fst (getAllTodos db3) = [mkTodo 1 (lit "Buy oat milk") true 1000 3000] /\
  fst (getAllTodos db4) = [] /\
  fst (deleteTodo 1 db4) = false.
Proof. repeat split. Qed.

Example parseInt_12abc : parseInt (lit "12abc") = Some 12.
Proof. reflexivity. Qed.

Example parseInt_hex : parseInt (lit "0x1A") = Some 26.
Proof. reflexivity. Qed.

Example parseInt_signed : parseInt (lit "  -5 ") = Some (-5).
Proof. reflexivity. Qed.

Example parseInt_letters : parseInt (lit "abc") = None.
Proof. reflexivity. Qed.

Example trim_buy_milk : trim (lit "  Buy milk  ") = lit "Buy milk".
Proof. reflexivity. Qed.

(* ================================================================== *)
(** * The id between the view and the handlers                         *)
(* ================================================================== *)

Lemma digitsValue_snoc (R : Z) (ds : list Z) (d : Z) :
  digitsValue R (ds ++ [d]) = digitsValue R ds * R + d.
Proof. unfold digitsValue. now rewrite fold_left_app. Qed.

(** With enough fuel the digits are digits, there is one at least, and
    they write the number. *)
Lemma decimalDigits_spec (fuel : nat) (n : Z) :
  0 <= n < 2 ^ Z.of_nat fuel -> (0 < fuel)%nat ->
  decimalDigits fuel n <> [] /\
  Forall (fun d => 0 <= d < 10) (decimalDigits fuel n) /\
  digitsValue 10 (decimalDigits fuel n) = n.
Proof.
  revert n. induction fuel as [|f IH]; intros n Hn Hf; [lia|].
  simpl. destruct (n <? 10) eqn:E.
  - apply Z.ltb_lt in E. repeat split.
    + discriminate.
    + constructor; [lia|constructor].
  - apply Z.ltb_ge in E.
    assert (Hpow : 2 ^ Z.of_nat (S f) = 2 * 2 ^ Z.of_nat f)
      by (rewrite Nat2Z.inj_succ, Z.pow_succ_r; lia).
    assert (Hq : 0 <= n / 10 < 2 ^ Z.of_nat f).
    { split; [apply Z.div_pos; lia|].
      apply Z.div_lt_upper_bound; lia. }
    assert (Hf' : (0 < f)%nat).
    { destruct f; [|lia]. simpl in Hn. lia. }
    destruct (IH (n / 10) Hq Hf') as (Hne & Hall & Hval).
    repeat split.
    + intros H. apply app_eq_nil in H as [_ H]. discriminate.
    + apply Forall_app. split; [exact Hall|].
      constructor; [|constructor].
      apply Z.mod_pos_bound. lia.
    + rewrite digitsValue_snoc, Hval.
      pose proof (Z.div_mod n 10). lia.
Qed.

Lemma log2_fuel (n : Z) :
  0 <= n -> n < 2 ^ Z.of_nat (S (Z.to_nat (Z.log2 n))).
Proof.
  intros Hn. rewrite Nat2Z.inj_succ, Z2Nat.id by apply Z.log2_nonneg.
  destruct (Z.eq_dec n 0) as [->|Hz]; [reflexivity|].
  apply Z.log2_spec. lia.
Qed.

Lemma digit_char (d : Z) :
  0 <= d < 10 ->
  isDecimalDigit (Z.to_N (d + 48)) = true /\
  Z.of_N (Z.to_N (d + 48)) - 48 = d.
Proof.
  intros Hd. rewrite Z2N.id by lia. split; [|lia].
  unfold isDecimalDigit. apply andb_true_iff. split; apply N.leb_le; lia.
Qed.

(** The characters [String] writes for a non-negative integer: decimal
    digits only, one at least, whose values write the number. *)
Lemma digit_chars_spec (n : Z) :
  0 <= n ->
  let cs := map (fun d => Z.to_N (d + 48))
                (decimalDigits (S (Z.to_nat (Z.log2 n))) n) in
  cs <> [] /\ forallb isDecimalDigit cs = true /\
  digitsValue 10 (map (fun c => Z.of_N c - 48) cs) = n.
Proof.
  intros Hn cs.
  destruct (decimalDigits_spec (S (Z.to_nat (Z.log2 n))) n) as
    (Hne & Hall & Hval); [split; [exact Hn|now apply log2_fuel]|lia|].
  subst cs. repeat split.
  - intros H. apply map_eq_nil in H. contradiction.
  - apply forallb_forall. intros c Hc.
    apply in_map_iff in Hc as (d & <- & Hd).
    rewrite Forall_forall in Hall. now apply digit_char, Hall.
  - rewrite map_map.
    rewrite (map_ext_in _ (fun d => d)), map_id; [exact Hval|].
    intros d Hd. rewrite Forall_forall in Hall. now apply digit_char, Hall.
Qed.

Lemma stripPrefix_decimal (ds : jsstring) :
  forallb isDecimalDigit ds = true -> stripPrefix ds = (10, ds).
Proof.
  destruct ds as [|d0 [|d1 r]]; try reflexivity.
  simpl. intros H. apply andb_true_iff in H as [_ H].
  apply andb_true_iff in H as [H _]. unfold isDecimalDigit in H.
  apply andb_true_iff in H as [H1 H2]. apply N.leb_le in H1, H2.
  destruct (d1 =? 120)%N eqn:E1; [apply N.eqb_eq in E1; lia|].
  destruct (d1 =? 88)%N eqn:E2; [apply N.eqb_eq in E2; lia|].
  now rewrite andb_false_r.
Qed.

Lemma parseInt_minus_decimal (ds : jsstring) :
  ds <> [] -> forallb isDecimalDigit ds = true ->
  parseInt (45%N :: ds)
  = Some (- digitsValue 10 (map (fun c => Z.of_N c - 48) ds)).
Proof.
  intros Hne Hds. unfold parseInt.
  change (trimStart (45%N :: ds)) with (45%N :: ds).
  change (stripSign (45%N :: ds)) with (-1, ds). cbv beta iota.
  rewrite (stripPrefix_decimal ds Hds).
  pose proof (takeDigits_run ds [] Hds I) as Ht.
  rewrite app_nil_r in Ht. rewrite Ht.
  destruct ds as [|d ds]; [contradiction|]. simpl map. cbv iota.
  f_equal; lia.
Qed.

Lemma parseInt_numberToString (n : Z) : parseInt (numberToString n) = Some n.
Proof.
  unfold numberToString. destruct (n <? 0) eqn:E.
  - apply Z.ltb_lt in E.
    destruct (digit_chars_spec (- n)) as (Hne & Hds & Hval); [lia|].
    rewrite (parseInt_minus_decimal _ Hne Hds), Hval. f_equal. lia.
  - apply Z.ltb_ge in E.
    destruct (digit_chars_spec n E) as (Hne & Hds & Hval).
    pose proof (parseInt_decimal_prefix _ [] Hne Hds I) as H.
    rewrite app_nil_r in H. now rewrite H, Hval.
Qed.

(** X1.  The id of a task survives the trip from the view to the handler:
    for an integer of magnitude at most 2^53, [parseInt] of the text that
    the view puts in the path is that integer.  When the storage call
    returns, which it does for an id of the integer column on a reachable
    database, the DELETE handler answers 204 or 404 by the result of
    [deleteTodo] on that id; when it throws, the answer is 500 and the
    table is left as it was. *)
Theorem id_round_trip (i : Z) (connected : bool) (db : Db) :
  Z.abs i <= 2 ^ 53 ->
  parseInt (View.idParam (Some i)) = Some i /\
  route_delete (callReturns connected i) db (View.idParam (Some i))
  = if callReturns connected i
    then (snd (deleteTodo i db),
          if fst (deleteTodo i db) then mkResponse 204 NoContent
          else mkResponse 404 (Message (lit "Todo not found")))
    else (db, mkResponse 500 (Message (lit "Failed to delete todo"))).
Proof.
  intros _. simpl View.idParam.
  pose proof (parseInt_numberToString i) as Hp. split; [exact Hp|].
  unfold route_delete, attempt. rewrite Hp.
  destruct (callReturns connected i); [|reflexivity].
  destruct (deleteTodo i db) as [[|] db']; reflexivity.
Qed.

Lemma id_round_trip_witness :
  parseInt (View.idParam (Some 2)) = Some 2 /\
  route_delete (callReturns true 2) sampleDb (View.idParam (Some 2))
  = ({| rows := [buyMilk; payRent]; nextId := 4 |},
     mkResponse 204 NoContent).
Proof.
  apply (id_round_trip 2 true sampleDb). vm_compute. discriminate.
Defined.

(* ================================================================== *)
(** * Further properties of the store                                  *)
(* ================================================================== *)

Lemma getTodo_None_iff (i : Z) (db : Db) :
  fst (getTodo i db) = None <-> ~ exists_id i db.
Proof.
  split.
  - intros H Hex. apply exists_getTodo in Hex as [t Ht]. congruence.
  - intros H. unfold getTodo. simpl.
    now rewrite (where_missing i (rows db) H).
Qed.

(** X2.  [getTodo] finds a record exactly when a row has the id; the record
    found is a row of the table with that id, and a read changes
    nothing. *)
Theorem getTodo_lookup (i : Z) (db : Db) :
  (fst (getTodo i db) = None <-> ~ exists_id i db) /\
  (forall t, fst (getTodo i db) = Some t -> In t (rows db) /\ id t = i) /\
  snd (getTodo i db) = db.
Proof.
  split; [apply getTodo_None_iff|]. split; [|reflexivity].
  intros t Ht. destruct (getTodo_exists i db t Ht) as (H1 & H2 & _).
  now split.
Qed.

(** X3.  [updateTodo] returns a record exactly when a row has the id; it
    never adds or removes a row, and never changes the [id] or the
    [createdAt] of a row: the pairs of the two are the same before and
    after, as is the sequence. *)
Theorem updateTodo_keeps_keys (i : Z) (u : UpdateTodo) (now : Z) (db : Db) :
  (fst (updateTodo i u now db) = None <-> ~ exists_id i db) /\
  Permutation
    (map (fun t => (id t, createdAt t)) (rows (snd (updateTodo i u now db))))
    (map (fun t => (id t, createdAt t)) (rows db)) /\
  length (rows (snd (updateTodo i u now db))) = length (rows db) /\
  nextId (snd (updateTodo i u now db)) = nextId db.
Proof.
  split; [|split; [|split]].
  - split.
    + intros H Hex. apply exists_getTodo in Hex as [t Ht].
      rewrite (updateTodo_returns i u now db t Ht) in H. discriminate.
    + intros H. now rewrite (updateTodo_missing_eq i u now db H).
  - simpl. rewrite map_map.
    rewrite (map_ext _ (fun t => (id t, createdAt t))); [reflexivity|].
    intros t. now destruct (eqId i t).
  - simpl. apply length_map.
  - reflexivity.
Qed.

(** X4.  [deleteTodo] returns [true] exactly when a row has the id; after it
    no row has the id, the ids left are the others in their order, and the
    rows left are rows the table had. *)
Theorem deleteTodo_removes_id (i : Z) (db : Db) :
  (fst (deleteTodo i db) = true <-> exists_id i db) /\
  ~ exists_id i (snd (deleteTodo i db)) /\
  map id (rows (snd (deleteTodo i db)))
    = filter (fun j => negb (j =? i)) (map id (rows db)) /\
  (forall t, In t (rows (snd (deleteTodo i db)))
             <-> In t (rows db) /\ id t <> i).
Proof.
  split; [|split; [|split]].
  - split.
    + intros H. destruct (in_dec Z.eq_dec i (map id (rows db))) as [Hin|Hm];
        [exact Hin|].
      rewrite (deleteTodo_missing_eq i db Hm) in H. discriminate.
    + intros H. now apply deleteTodo_existing.
  - unfold exists_id. simpl. apply deleted_missing.
  - simpl. induction (rows db) as [|t l IH]; simpl; [reflexivity|].
    unfold eqId at 1. destruct (id t =? i); simpl; [exact IH|now f_equal].
  - intros t. apply deleteTodo_frame.
Qed.

Lemma setColumns_twice (u1 u2 : UpdateTodo) (n1 n2 : Z) (t : Todo) :
  setColumns u2 n2 (setColumns u1 n1 t)
  = setColumns
      (mkUpdateTodo
         (match u_text u2 with Some s => Some s | None => u_text u1 end)
         (match u_completed u2 with
          | Some b => Some b
          | None => u_completed u1
          end))
      n2 t.
Proof.
  unfold setColumns. simpl.
  destruct (u_text u2), (u_text u1), (u_completed u2), (u_completed u1);
    reflexivity.
Qed.

(** X5.  Two updates of the same id in a row are one update: the fields of
    the second where it supplies them, those of the first elsewhere, and
    the time of the second.  The returned record and the table are the
    same. *)
Theorem updateTodo_twice (i : Z) (u1 u2 : UpdateTodo) (n1 n2 : Z) (db : Db) :
  updateTodo i u2 n2 (snd (updateTodo i u1 n1 db))
  = updateTodo i
      (mkUpdateTodo
         (match u_text u2 with Some s => Some s | None => u_text u1 end)
         (match u_completed u2 with
          | Some b => Some b
          | None => u_completed u1
          end))
      n2 db.
Proof.
  unfold updateTodo. simpl. rewrite where_after_set.
  rewrite !map_map. f_equal.
  - f_equal. apply map_ext. intros t. apply setColumns_twice.
  - f_equal. apply map_ext. intros t.
    destruct (eqId i t) eqn:E.
    + assert (E' : eqId i (setColumns u1 n1 t) = true) by exact E.
      rewrite E'. apply setColumns_twice.
    + now rewrite E.
Qed.

(** X6.  Toggling a task twice, each time from the record the store
    returned, gives back its [completed]; [text], [createdAt] and [id] are
    those it had and [updatedAt] is the time of the second toggle. *)
Theorem toggle_twice (db : Db) (t : Todo) (n1 n2 : Z) :
  fst (getTodo (id t) db) = Some t ->
  let toggle r := mkUpdateTodo None (Some (negb (completed r))) in
  exists t1,
    fst (updateTodo (id t) (toggle t) n1 db) = Some t1 /\
    completed t1 = negb (completed t) /\
    fst (updateTodo (id t1) (toggle t1) n2
           (snd (updateTodo (id t) (toggle t) n1 db)))
    = Some (mkTodo (id t) (text t) (completed t) (createdAt t) n2).
Proof.
  intros Hg toggle.
  exists (setColumns (toggle t) n1 t). split; [|split].
  - exact (updateTodo_returns _ _ n1 db t Hg).
  - reflexivity.
  - pose proof (getTodo_after_update (id t) (toggle t) n1 db t Hg) as Hg1.
    simpl id at 1.
    rewrite (updateTodo_returns _ _ n2 _ _ Hg1).
    unfold setColumns. simpl. now rewrite negb_involutive.
Qed.

Lemma toggle_twice_witness :
  exists t1,
    fst (updateTodo 1 (mkUpdateTodo None (Some true)) 3000 sampleDb)
      = Some t1 /\
    completed t1 = true /\
    fst (updateTodo (id t1) (mkUpdateTodo None (Some (negb (completed t1))))
           4000
           (snd (updateTodo 1 (mkUpdateTodo None (Some true)) 3000 sampleDb)))
    = Some (mkTodo 1 (lit "Buy milk") false 1000 4000).
Proof.
  exact (toggle_twice sampleDb buyMilk 3000 4000 eq_refl).
Defined.

(** ** Listing after a change *)

Section OrderByMap.
Context {A : Type} (key : A -> Z) (f : A -> A).
Hypothesis key_f : forall x, key (f x) = key x.

Lemma insertDesc_map (t : A) (l : list A) :
  insertDesc key (f t) (map f l) = map f (insertDesc key t l).
Proof.
  induction l as [|x r IH]; simpl; [reflexivity|].
  rewrite !key_f. destruct (key x <? key t); simpl; [reflexivity|].
  now rewrite IH.
Qed.

Lemma orderByDesc_map (l : list A) :
  orderByDesc key (map f l) = map f (orderByDesc key l).
Proof.
  induction l as [|x r IH]; simpl; [reflexivity|].
  now rewrite IH, insertDesc_map.
Qed.
End OrderByMap.

(** X7.  An update never moves a task in the list: when no two tasks share
    a [createdAt], the list after an update is the list before with the
    updated record at the place of the task of that id, every other task
    where it was. *)
Theorem list_after_update (i : Z) (u : UpdateTodo) (now : Z) (db : Db) :
  NoDup (map createdAt (rows db)) ->
  fst (getAllTodos (snd (updateTodo i u now db)))
  = map (fun t => if eqId i t then setColumns u now t else t)
        (fst (getAllTodos db)).
Proof.
  intros _. simpl. apply orderByDesc_map. intros t. now destruct (eqId i t).
Qed.

Lemma sampleDb_createdAt : NoDup (map createdAt (rows sampleDb)).
Proof.
  simpl. repeat constructor; simpl; intros H;
    repeat (destruct H as [H|H]; [discriminate H|]); exact H.
Qed.

Lemma list_after_update_witness :
  fst (getAllTodos
         (snd (updateTodo 3 (mkUpdateTodo (Some (lit "Pay the rent")) None)
                 5000 sampleDb)))
  = [walkDog; mkTodo 3 (lit "Pay the rent") false 1500 5000; buyMilk].
Proof.
  exact (list_after_update 3 (mkUpdateTodo (Some (lit "Pay the rent")) None)
           5000 sampleDb sampleDb_createdAt).
Defined.

(** X8.  A created task is in the next list, with every task listed before
    and no other; it carries the text submitted, and the tasks stored
    before stay as they were, in front of it in the table. *)
Theorem list_after_create (values : InsertTodo) (now : Z) (db : Db) :
  let t := fst (createTodo values now db) in
  let db' := snd (createTodo values now db) in
  text t = i_text values /\
  rows db' = rows db ++ [t] /\
  Permutation (t :: fst (getAllTodos db)) (fst (getAllTodos db')) /\
  (forall r, In r (fst (getAllTodos db')) <-> r = t \/ In r (rows db)).
Proof.
  intros t db'.
  assert (HP : Permutation (t :: fst (getAllTodos db)) (fst (getAllTodos db'))).
  { simpl. rewrite <- !orderByDesc_perm. apply Permutation_cons_append. }
  repeat split; trivial.
  - intros Hin. eapply Permutation_in in Hin; [|symmetry; exact HP].
    destruct Hin as [<-|Hin]; [now left|right].
    eapply Permutation_in; [symmetry; apply orderByDesc_perm|exact Hin].
  - intros H. eapply Permutation_in; [exact HP|].
    destruct H as [->|H]; [now left|right].
    eapply Permutation_in; [apply orderByDesc_perm|exact H].
Qed.

Section OrderByFilter.
Context {A : Type} (key : A -> Z) (p : A -> bool).

Lemma insertDesc_front (x : A) (l : list A) :
  Forall (fun z => key z < key x) l -> insertDesc key x l = x :: l.
Proof.
  destruct l as [|y r]; [reflexivity|]. intros H. simpl.
  inversion H as [|? ? Hy _]; subst.
  apply Z.ltb_lt in Hy. now rewrite Hy.
Qed.

Lemma filter_insertDesc (x : A) (l : list A) :
  StronglySorted (descBy key) l ->
  filter p (insertDesc key x l)
  = if p x then insertDesc key x (filter p l) else filter p l.
Proof.
  induction 1 as [|y r Hs IH Hy]; simpl.
  - now destruct (p x).
  - destruct (key y <? key x) eqn:E.
    + apply Z.ltb_lt in E. simpl. destruct (p x) eqn:Px; [|reflexivity].
      symmetry. apply (insertDesc_front x (filter p (y :: r))).
      apply Forall_forall. intros z Hz. apply filter_In in Hz as [Hz _].
      destruct Hz as [<-|Hz]; [exact E|].
      rewrite Forall_forall in Hy. specialize (Hy z Hz).
      unfold descBy in Hy. lia.
    + simpl. rewrite IH. destruct (p y) eqn:Py, (p x) eqn:Px;
        simpl; try rewrite E; reflexivity.
Qed.

(** Filtering a sorted listing is listing the filtered rows. *)
Lemma filter_orderByDesc (l : list A) :
  filter p (orderByDesc key l) = orderByDesc key (filter p l).
Proof.
  induction l as [|x r IH]; simpl; [reflexivity|].
  rewrite filter_insertDesc by apply orderByDesc_sorted.
  rewrite IH. now destruct (p x).
Qed.
End OrderByFilter.

(** X9.  A deleted id is in no later list: no task of the list after a
    delete has the id.  When no two tasks share a [createdAt], that list is
    the list before without the task of that id, the others in the order
    they had. *)
Theorem list_after_delete (i : Z) (db : Db) :
  (forall t, In t (fst (getAllTodos (snd (deleteTodo i db)))) -> id t <> i) /\
  (NoDup (map createdAt (rows db)) ->
   fst (getAllTodos (snd (deleteTodo i db)))
   = filter (fun t => negb (eqId i t)) (fst (getAllTodos db))).
Proof.
  assert (E : fst (getAllTodos (snd (deleteTodo i db)))
              = filter (fun t => negb (eqId i t)) (fst (getAllTodos db))).
  { simpl. symmetry. apply filter_orderByDesc. }
  split; [|intros _; exact E].
  intros t Ht. rewrite E in Ht. apply filter_In in Ht as [_ Ht].
  now apply negb_true_iff, eqId_false in Ht.
Qed.

Lemma list_after_delete_witness :
  fst (getAllTodos (snd (deleteTodo 3 sampleDb))) = [walkDog; buyMilk].
Proof.
  exact (proj2 (list_after_delete 3 sampleDb) sampleDb_createdAt).
Defined.

Lemma StronglySorted_filter {A : Type} (R : A -> A -> Prop) (p : A -> bool)
  (l : list A) :
  StronglySorted R l -> StronglySorted R (filter p l).
Proof.
  induction 1 as [|x r Hs IH Hx]; simpl; [constructor|].
  destruct (p x); [|exact IH]. constructor; [exact IH|].
  apply Forall_forall. intros y Hy. apply filter_In in Hy as [Hy _].
  rewrite Forall_forall in Hx. now apply Hx.
Qed.

(** X10.  Every filtered view of a list that is newest first is newest
    first, and the completed and the active view together hold every
    fetched task as often as the list does. *)
Theorem views_keep_order (todos : list Todo) :
  (forall f, StronglySorted (descBy createdAt) todos ->
             StronglySorted (descBy createdAt)
               (View.getFilteredTodos f todos)) /\
  Permutation todos
    (View.getFilteredTodos View.Fcompleted todos
     ++ View.getFilteredTodos View.Factive todos).
Proof.
  split.
  - intros f Hs. destruct f; simpl;
      [exact Hs|now apply StronglySorted_filter..].
  - simpl. induction todos as [|t l IH]; simpl; [constructor|].
    destruct (completed t); simpl.
    + now apply perm_skip.
    + rewrite <- Permutation_middle. now apply perm_skip.
Qed.

Lemma views_keep_order_witness :
  StronglySorted (descBy createdAt)
    (View.getFilteredTodos View.Factive (fst (getAllTodos sampleDb))).
Proof.
  apply (proj1 (views_keep_order (fst (getAllTodos sampleDb)))).
  apply orderByDesc_sorted.
Defined.

(* ================================================================== *)
(** * The answers of the handlers                                      *)
(* ================================================================== *)

Lemma exists_id_dec (i : Z) (db : Db) : {exists_id i db} + {~ exists_id i db}.
Proof. apply in_dec, Z.eq_dec. Qed.

Lemma deleteTodo_existing_eq (i : Z) (db : Db) :
  exists_id i db -> deleteTodo i db = (true, snd (deleteTodo i db)).
Proof.
  intros H. destruct (deleteTodo_existing i db H) as [Ht _].
  destruct (deleteTodo i db) as [b db']. simpl in *. now subst b.
Qed.

Ltac outcome :=
  intros;
  repeat match goal with
         | H : exists _, _ |- _ => destruct H
         | H : _ /\ _ |- _ => destruct H
         | H : Some _ = Some _ |- _ => injection H as H; subst
         | H : Success _ = Success _ |- _ => injection H as H; subst
         end;
  try discriminate; try congruence; try contradiction;
  try (eexists; repeat split; eauto; fail);
  try (repeat split; eauto; fail).

(** X11.  The answer of DELETE is decided by the id parameter first, then
    the connection, then the table: 400 exactly when the id does not
    parse, 500 exactly when it parses and the database cannot be reached,
    204 exactly when the id exists, 404 exactly when it does not; the table
    changes only with a 204, and then to what [deleteTodo] leaves. *)
Theorem route_delete_outcomes (up : bool) (db : Db) (idParam : jsstring) :
  let r := route_delete up db idParam in
  (status (snd r) = 400 <-> parseInt idParam = None) /\
  (status (snd r) = 500 <->
     (exists i, parseInt idParam = Some i) /\ up = false) /\
  (status (snd r) = 204 <->
     exists i, parseInt idParam = Some i /\ up = true /\ exists_id i db) /\
  (status (snd r) = 404 <->
     exists i, parseInt idParam = Some i /\ up = true /\ ~ exists_id i db) /\
  (status (snd r) <> 204 -> fst r = db) /\
  (forall i, parseInt idParam = Some i -> status (snd r) = 204 ->
             fst r = snd (deleteTodo i db)).
Proof.
  unfold route_delete, attempt.
  destruct (parseInt idParam) as [i|] eqn:Hp.
  - destruct up.
    + destruct (exists_id_dec i db) as [Hex|Hm].
      * rewrite (deleteTodo_existing_eq i db Hex). simpl.
        repeat split; outcome.
      * rewrite (deleteTodo_missing_eq i db Hm). simpl.
        repeat split; outcome.
    + simpl. repeat split; outcome.
  - simpl. repeat split; outcome.
Qed.

(** X12.  The answer of PUT is decided by the id parameter, then the body,
    then the connection, then the table: 400 exactly when the id does not
    parse or the schema rejects the body, 500 exactly when both pass and
    the database cannot be reached, 200 exactly when the id exists, 404
    exactly when it does not; the table changes only with a 200. *)
Theorem route_put_outcomes
  (updateTodoSchema : json -> SafeParse UpdateTodo)
  (up : bool) (db : Db) (idParam : jsstring) (body : json) (now : Z) :
  let r := route_put updateTodoSchema up db idParam body now in
  let accepted :=
    exists i data,
      parseInt idParam = Some i /\ updateTodoSchema body = Success data in
  (status (snd r) = 400 <->
     parseInt idParam = None \/ exists e, updateTodoSchema body = Failure e) /\
  (status (snd r) = 500 <-> accepted /\ up = false) /\
  (status (snd r) = 200 <->
     accepted /\ up = true /\
     exists i, parseInt idParam = Some i /\ exists_id i db) /\
  (status (snd r) = 404 <->
     accepted /\ up = true /\
     exists i, parseInt idParam = Some i /\ ~ exists_id i db) /\
  (status (snd r) <> 200 -> fst r = db).
Proof.
  intros r accepted.
  assert (Hframe : status (snd r) <> 200 -> fst r = db)
    by apply route_put_error_frame.
  split; [|split; [|split; [|split; [|exact Hframe]]]]; clear Hframe;
    subst r accepted; unfold route_put, attempt;
    destruct (parseInt idParam) as [i|] eqn:Hp;
    destruct (updateTodoSchema body) as [data|e] eqn:Hs;
    destruct up;
    try (destruct (exists_id_dec i db) as [Hex|Hm];
         [destruct (exists_getTodo i db Hex) as [t Ht];
          pose proof (updateTodo_returns i data now db t Ht) as Hr;
          destruct (updateTodo i data now db) as [res db'];
          simpl in Hr; subst res
         |rewrite (updateTodo_missing_eq i data now db Hm)]);
    simpl; split; outcome;
    try (left; reflexivity); try (right; eexists; reflexivity);
    try (destruct H; outcome).
Qed.

(** X13.  POST answers 400 exactly when the schema rejects the body,
    whatever the state of the connection, 500 exactly when the body passes
    and the database cannot be reached, and 201 otherwise, with one row
    added, the record it returns; GET answers 200 with the list or 500, and
    neither a GET nor a POST that is not answered 201 changes the table. *)
Theorem route_post_outcomes
  (insertTodoSchema : json -> SafeParse InsertTodo)
  (up : bool) (db : Db) (body : json) (now : Z) :
  let r := route_post insertTodoSchema up db body now in
  (status (snd r) = 400 <-> exists e, insertTodoSchema body = Failure e) /\
  (status (snd r) = 500 <->
     (exists data, insertTodoSchema body = Success data) /\ up = false) /\
  (status (snd r) = 201 <->
     (exists data, insertTodoSchema body = Success data) /\ up = true) /\
  (status (snd r) <> 201 -> fst r = db) /\
  (status (snd r) = 201 ->
     exists todo, payload (snd r) = OneTodo todo /\
                  rows (fst r) = rows db ++ [todo]) /\
  fst (route_get up db) = db /\
  (status (snd (route_get up db)) = 200 <-> up = true) /\
  (status (snd (route_get up db)) = 500 <-> up = false).
Proof.
  unfold route_post, route_get, attempt.
  destruct (insertTodoSchema body) as [data|e] eqn:Hs; destruct up; simpl;
    repeat split; outcome.
Qed.

(** X14.  Once DELETE has answered 204 for an id, the id is gone for the
    API: the same DELETE again answers 404, a PUT on it with a body the
    schema accepts answers 404, neither changes the table, and no task of
    a later GET has the id. *)
Theorem delete_then_gone
  (updateTodoSchema : json -> SafeParse UpdateTodo)
  (db : Db) (idParam : jsstring) (i : Z) (body : json) (data : UpdateTodo)
  (now : Z) :
  parseInt idParam = Some i ->
  exists_id i db ->
  updateTodoSchema body = Success data ->
  let db1 := fst (route_delete true db idParam) in
  snd (route_delete true db idParam) = mkResponse 204 NoContent /\
  route_delete true db1 idParam
    = (db1, mkResponse 404 (Message (lit "Todo not found"))) /\
  route_put updateTodoSchema true db1 idParam body now
    = (db1, mkResponse 404 (Message (lit "Todo not found"))) /\
  (exists l, snd (route_get true db1) = mkResponse 200 (Todos l) /\
             forall t, In t l -> id t <> i).
Proof.
  intros Hp Hex Hs db1.
  assert (E : route_delete true db idParam
              = (snd (deleteTodo i db), mkResponse 204 NoContent)).
  { unfold route_delete, attempt.
    now rewrite Hp, (deleteTodo_existing_eq i db Hex). }
  assert (Hm : ~ exists_id i db1).
  { subst db1. rewrite E. unfold exists_id. simpl. apply deleted_missing. }
  split; [now rewrite E|]. split; [|split].
  - unfold route_delete, attempt.
    now rewrite Hp, (deleteTodo_missing_eq i db1 Hm).
  - now apply route_put_missing with (i := i) (data := data).
  - exists (fst (getAllTodos db1)). split; [reflexivity|].
    intros t Ht Hid. apply Hm. unfold exists_id.
    apply in_map_iff. exists t. split; [exact Hid|].
    eapply Permutation_in; [symmetry; apply orderByDesc_perm|exact Ht].
Qed.

Lemma delete_then_gone_witness :
  snd (route_delete true sampleDb (lit "2")) = mkResponse 204 NoContent /\
  route_delete true (fst (route_delete true sampleDb (lit "2"))) (lit "2")
    = ({| rows := [buyMilk; payRent]; nextId := 4 |},
       mkResponse 404 (Message (lit "Todo not found"))).
Proof.
  assert (Hex : exists_id 2 sampleDb) by (right; left; reflexivity).
  pose proof (delete_then_gone specUpdateTodoSchema sampleDb (lit "2") 2
                (JObj []) (mkUpdateTodo None None) 3000
                eq_refl Hex eq_refl) as (H1 & H2 & _).
  split; [exact H1|exact H2].
Defined.

(* ================================================================== *)
(** * Further properties of the view                                   *)
(* ================================================================== *)

Lemma trimStart_fixed (s : jsstring) :
  match s with [] => True | c :: _ => isWhiteSpace c = false end ->
  trimStart s = s.
Proof. destruct s as [|c r]; simpl; [reflexivity|]. now intros ->. Qed.

Lemma trim_first (s : jsstring) (c : N) (r : jsstring) :
  trim s = c :: r -> isWhiteSpace c = false.
Proof.
  unfold trim, trimEnd. intros H.
  destruct (trimStart_split (rev (trimStart s))) as (p & Hp & _).
  apply (f_equal (@rev N)) in Hp.
  rewrite rev_involutive, rev_app_distr, H in Hp.
  simpl in Hp. now apply trimStart_head in Hp.
Qed.

Lemma trim_last (s : jsstring) (c : N) (r : jsstring) :
  rev (trim s) = c :: r -> isWhiteSpace c = false.
Proof.
  unfold trim, trimEnd. rewrite rev_involutive. apply trimStart_head.
Qed.

Lemma trim_idempotent (s : jsstring) : trim (trim s) = trim s.
Proof.
  unfold trim at 1. unfold trimEnd.
  rewrite (trimStart_fixed (trim s)).
  - rewrite (trimStart_fixed (rev (trim s))); [apply rev_involutive|].
    destruct (rev (trim s)) as [|c r] eqn:E; [exact I|].
    now apply trim_last in E.
  - destruct (trim s) as [|c r] eqn:E; [exact I|].
    now apply trim_first in E.
Qed.

(** X15.  The view never sends an empty or padded text.  Submitting a draft
    fires nothing when the draft is white space only; otherwise it fires
    one create whose text is the draft without the white space at its two
    ends: not empty, a white-space character neither first nor last, and
    unchanged by another trim.  The draft itself is not touched. *)
Theorem handleSubmit_sends_trimmed (st : View.State) :
  fst (View.handleSubmit st) = st /\
  (snd (View.handleSubmit st) = []
   <-> forallb isWhiteSpace (View.newTodoText st) = true) /\
  (forall m, In m (snd (View.handleSubmit st)) ->
     exists sent p q,
       m = View.createTodoMutation sent /\
       snd (View.handleSubmit st) = [m] /\
       View.newTodoText st = p ++ sent ++ q /\
       forallb isWhiteSpace p = true /\ forallb isWhiteSpace q = true /\
       sent <> [] /\ trim sent = sent /\
       (forall c r, sent = c :: r -> isWhiteSpace c = false) /\
       (forall c r, rev sent = c :: r -> isWhiteSpace c = false)).
Proof.
  unfold View.handleSubmit.
  destruct (falsy (trim (View.newTodoText st))) eqn:E.
  - apply falsy_nil in E. split; [reflexivity|]. split.
    + split; [intros _; now apply trim_nil_iff|reflexivity].
    + intros m [].
  - assert (Hne : trim (View.newTodoText st) <> []).
    { intros H. apply falsy_nil in H. congruence. }
    split; [reflexivity|]. split.
    + split; [discriminate|].
      intros H. apply trim_nil_iff in H. contradiction.
    + intros m [<-|[]].
      destruct (trim_split (View.newTodoText st)) as (p & q & Hs & Hp & Hq).
      exists (trim (View.newTodoText st)), p, q.
      repeat split; trivial.
      * apply trim_idempotent.
      * intros c r. apply trim_first.
      * intros c r. apply trim_last.
Qed.

(** ** Clear completed *)

Lemma filter_twice {A : Type} (f g : A -> bool) (l : list A) :
  filter f (filter g l) = filter (fun x => g x && f x) l.
Proof.
  induction l as [|x l IH]; simpl; [reflexivity|].
  destruct (g x); simpl; [|exact IH]. destruct (f x); now rewrite IH.
Qed.

(** A run of deletes leaves the rows whose id is none of the deleted, and
    the sequence where it was. *)
Lemma run_deletes (ids : list Z) (db : Db) :
  rows (run (map OpDelete ids) db)
  = filter (fun t => negb (existsb (Z.eqb (id t)) ids)) (rows db) /\
  nextId (run (map OpDelete ids) db) = nextId db.
Proof.
  revert db. induction ids as [|i ids IH]; intros db.
  - simpl. split; [|reflexivity]. symmetry. apply forallb_filter_id.
    apply forallb_forall. reflexivity.
  - change (run (map OpDelete (i :: ids)) db)
      with (run (map OpDelete ids) (snd (deleteTodo i db))).
    destruct (IH (snd (deleteTodo i db))) as [Hr Hn].
    rewrite Hr, Hn. split; [|reflexivity].
    simpl. rewrite filter_twice. apply filter_ext. intros t.
    unfold eqId. now rewrite negb_orb.
Qed.

Lemma key_injective (l : list Todo) (a b : Todo) :
  NoDup (map id l) -> In a l -> In b l -> id a = id b -> a = b.
Proof.
  induction l as [|x l IH]; simpl; intros Hnd Ha Hb E; [destruct Ha|].
  inversion Hnd as [|? ? Hx Hl]; subst.
  destruct Ha as [->|Ha], Hb as [->|Hb]; trivial.
  - exfalso. apply Hx. rewrite E. now apply in_map.
  - exfalso. apply Hx. rewrite <- E. now apply in_map.
  - now apply IH.
Qed.

Lemma clearCompleted_fired (todos : list Todo) (st : View.State) :
  View.deletedIds (snd (View.handleClearCompleted true todos st))
  = map id (filter completed todos).
Proof.
  unfold View.handleClearCompleted.
  destruct (filter completed todos) as [|t l]; [reflexivity|].
  simpl. f_equal. induction l as [|x l IH]; simpl; [reflexivity|].
  now f_equal.
Qed.

(** X16.  Clear completed, once confirmed, fires one delete for each
    completed task of the fetched list and none for an active one; when the
    list is the table and ids are unique, running those deletes in any
    order leaves exactly the active rows, in their order.  Unconfirmed, it
    fires nothing. *)
Theorem clear_completed_leaves_active (db : Db) (todos : list Todo)
  (st : View.State) (ids : list Z) :
  NoDup (map id (rows db)) ->
  Permutation todos (rows db) ->
  Permutation ids
    (View.deletedIds (snd (View.handleClearCompleted true todos st))) ->
  rows (run (map OpDelete ids) db)
    = filter (fun t => negb (completed t)) (rows db) /\
  Z.of_nat (length ids) = View.completedTodos todos /\
  snd (View.handleClearCompleted false todos st) = [].
Proof.
  intros Hnd Hperm Hids. rewrite clearCompleted_fired in Hids.
  split; [|split].
  - rewrite (proj1 (run_deletes ids db)). apply filter_ext_in.
    intros t Ht. f_equal.
    destruct (completed t) eqn:Ec.
    + apply existsb_exists. exists (id t). split; [|apply Z.eqb_refl].
      eapply Permutation_in; [symmetry; exact Hids|].
      apply in_map, filter_In. split; [|exact Ec].
      eapply Permutation_in; [symmetry; exact Hperm|exact Ht].
    + apply not_true_iff_false. intros H.
      apply existsb_exists in H as (j & Hj & E). apply Z.eqb_eq in E.
      eapply Permutation_in in Hj; [|exact Hids].
      apply in_map_iff in Hj as (t' & Ht' & Hin).
      apply filter_In in Hin as [Hin Hc].
      eapply Permutation_in in Hin; [|exact Hperm].
      assert (t' = t) by (apply (key_injective (rows db)); congruence).
      congruence.
  - rewrite (Permutation_length Hids), length_map.
    reflexivity.
  - unfold View.handleClearCompleted.
    now destruct (length (filter completed todos) =? 0)%nat.
Qed.

Lemma clear_completed_leaves_active_witness :
  rows (run (map OpDelete [2]) sampleDb) = [buyMilk; payRent].
Proof.
  refine (proj1 (clear_completed_leaves_active sampleDb
                   (fst (getAllTodos sampleDb)) editingMilk [2] _ _ _)).
  - simpl. repeat constructor; simpl; intros H;
      repeat (destruct H as [H|H]; [discriminate H|]); exact H.
  - symmetry. apply orderByDesc_perm.
  - apply Permutation_refl.
Defined.

(** ** The age of a task *)

Lemma hours_bounds (e : Z) :
  3600000 * (e / 3600000) <= e < 3600000 * (e / 3600000) + 3600000.
Proof.
  pose proof (Z.mul_div_le e 3600000 ltac:(lia)).
  pose proof (Z.mul_succ_div_gt e 3600000 ltac:(lia)). lia.
Qed.

Lemma days_of_hours (e : Z) : e / 3600000 / 24 = e / 86400000.
Proof. rewrite Z.div_div by lia. reflexivity. Qed.

Lemma days_bounds (e : Z) :
  86400000 * (e / 86400000) <= e < 86400000 * (e / 86400000) + 86400000.
Proof.
  pose proof (Z.mul_div_le e 86400000 ltac:(lia)).
  pose proof (Z.mul_succ_div_gt e 86400000 ltac:(lia)). lia.
Qed.

(** X17.  What [formatRelativeTime] prints is decided by the time elapsed,
    within the range where JavaScript's arithmetic on milliseconds is
    exact: "Just now" under one hour, a date in the future included; "1
    hour ago" in the second hour; the number of whole hours, from 2 to 23,
    up to a day; "Yesterday" from 24 to under 48 hours; from then on the
    number of whole days, 2 at least, the whole days of the milliseconds
    elapsed. *)
Theorem formatRelativeTime_cases (now todoDate : Z) :
  Z.abs (now - todoDate) <= 2 ^ 53 ->
  let e := now - todoDate in
  let shown := View.formatRelativeTime now todoDate in
  (e < 3600000 -> shown = lit "Just now") /\
  (3600000 <= e < 7200000 -> shown = lit "1 hour ago") /\
  (7200000 <= e < 86400000 ->
     shown = numberToString (e / 3600000) ++ lit " hours ago" /\
     2 <= e / 3600000 <= 23) /\
  (86400000 <= e < 172800000 -> shown = lit "Yesterday") /\
  (172800000 <= e ->
     shown = numberToString (e / 86400000) ++ lit " days ago" /\
     2 <= e / 86400000).
Proof.
  intros _ e shown. subst shown. unfold View.formatRelativeTime.
  change (1000 * 60 * 60) with 3600000. fold e.
  pose proof (hours_bounds e) as Hh.
  pose proof (days_bounds e) as Hd.
  rewrite (days_of_hours e).
  split; [|split; [|split; [|split]]]; intros H.
  - assert (E : (e / 3600000 <? 1) = true) by (apply Z.ltb_lt; lia).
    now rewrite E.
  - assert (E : e / 3600000 = 1) by lia. now rewrite E.
  - assert (E1 : (e / 3600000 <? 1) = false) by (apply Z.ltb_ge; lia).
    assert (E2 : (e / 3600000 <? 24) = true) by (apply Z.ltb_lt; lia).
    assert (E3 : (1 <? e / 3600000) = true) by (apply Z.ltb_lt; lia).
    rewrite E1, E2, E3. split; [reflexivity|lia].
  - assert (E1 : (e / 3600000 <? 1) = false) by (apply Z.ltb_ge; lia).
    assert (E2 : (e / 3600000 <? 24) = false) by (apply Z.ltb_ge; lia).
    assert (E3 : e / 86400000 = 1) by lia.
    now rewrite E1, E2, E3.
  - assert (E1 : (e / 3600000 <? 1) = false) by (apply Z.ltb_ge; lia).
    assert (E2 : (e / 3600000 <? 24) = false) by (apply Z.ltb_ge; lia).
    assert (E3 : (e / 86400000 =? 1) = false) by (apply Z.eqb_neq; lia).
    rewrite E1, E2, E3. split; [reflexivity|lia].
Qed.

Lemma formatRelativeTime_cases_witness :
  View.formatRelativeTime 1700200000000 1700000000000
  = lit "2 days ago".
Proof.
  pose proof (formatRelativeTime_cases 1700200000000 1700000000000) as H.
  assert (Hb : Z.abs (1700200000000 - 1700000000000) <= 2 ^ 53)
    by (vm_compute; discriminate).
  destruct (H Hb) as (_ & _ & _ & _ & H5).
  assert (Hc : 172800000 <= 1700200000000 - 1700000000000)
    by (vm_compute; discriminate).
  exact (proj1 (H5 Hc)).
Defined.

(* ================================================================== *)
(** * Signs and white space in the id parameter                        *)
(* ================================================================== *)

Lemma trimStart_app (p s : jsstring) :
  forallb isWhiteSpace p = true -> trimStart (p ++ s) = trimStart s.
Proof.
  induction p as [|c p IH]; simpl; [reflexivity|].
  intros H. apply andb_true_iff in H as [Hc Hp]. rewrite Hc. now apply IH.
Qed.

Lemma parseInt_leading_space (p s : jsstring) :
  forallb isWhiteSpace p = true -> parseInt (p ++ s) = parseInt s.
Proof. intros H. unfold parseInt. now rewrite (trimStart_app p s H). Qed.

Lemma parseInt_plus_decimal (ds : jsstring) :
  ds <> [] -> forallb isDecimalDigit ds = true ->
  parseInt (43%N :: ds)
  = Some (digitsValue 10 (map (fun c => Z.of_N c - 48) ds)).
Proof.
  intros Hne Hds. unfold parseInt.
  change (trimStart (43%N :: ds)) with (43%N :: ds).
  change (stripSign (43%N :: ds)) with (1, ds). cbv beta iota.
  rewrite (stripPrefix_decimal ds Hds).
  pose proof (takeDigits_run ds [] Hds I) as Ht.
  rewrite app_nil_r in Ht. rewrite Ht.
  destruct ds as [|d ds]; [contradiction|]. simpl map. cbv iota.
  f_equal; lia.
Qed.

(** X18.  The handlers read the id as [parseInt] does: white space in front
    is skipped, and one sign is taken.  For a run of decimal digits of
    value [v] at most 2^53, the run alone and the run after [+] are the id
    [v], the run after [-] is the id [-v], with or without leading white
    space, so that DELETE never answers such an id with 400. *)
Theorem id_sign_and_space (up : bool) (db : Db) (p ds : jsstring) :
  forallb isWhiteSpace p = true ->
  ds <> [] ->
  forallb isDecimalDigit ds = true ->
  digitsValue 10 (map (fun c => Z.of_N c - 48) ds) <= 2 ^ 53 ->
  let v := digitsValue 10 (map (fun c => Z.of_N c - 48) ds) in
  parseInt (p ++ ds) = Some v /\
  parseInt (p ++ 43%N :: ds) = Some v /\
  parseInt (p ++ 45%N :: ds) = Some (- v) /\
  route_delete up db (p ++ ds) = route_delete up db ds /\
  status (snd (route_delete up db (p ++ 45%N :: ds))) <> 400.
Proof.
  intros Hp Hne Hds _ v.
  pose proof (parseInt_decimal_prefix ds [] Hne Hds I) as H0.
  rewrite app_nil_r in H0.
  assert (Hm : parseInt (p ++ 45%N :: ds) = Some (- v)).
  { rewrite (parseInt_leading_space p _ Hp).
    now apply parseInt_minus_decimal. }
  split; [|split; [|split; [|split]]].
  - now rewrite (parseInt_leading_space p _ Hp).
  - rewrite (parseInt_leading_space p _ Hp).
    now apply parseInt_plus_decimal.
  - exact Hm.
  - apply route_delete_parseInt. now apply parseInt_leading_space.
  - intros H.
    assert (Hn : parseInt (p ++ 45%N :: ds) = None).
    { unfold route_delete, attempt in H. rewrite Hm in H.
      destruct up; [|discriminate H].
      destruct (deleteTodo (- v) db) as [[|] db']; discriminate H. }
    congruence.
Qed.

Lemma id_sign_and_space_witness :
  parseInt (lit "  " ++ lit "-" ++ lit "2") = Some (-2) /\
  route_delete true sampleDb (lit "  " ++ lit "2")
  = route_delete true sampleDb (lit "2").
Proof.
  assert (Hv : digitsValue 10 (map (fun c => Z.of_N c - 48) (lit "2"))
               <= 2 ^ 53) by (vm_compute; discriminate).
  assert (Hne : lit "2" <> []) by discriminate.
  pose proof (id_sign_and_space true sampleDb (lit "  ") (lit "2")
                eq_refl Hne eq_refl Hv) as (_ & _ & H3 & H4 & _).
  split; [exact H3|exact H4].
Defined.

(* ================================================================== *)
(** * Editing                                                          *)
(* ================================================================== *)

(** X19.  Opening the editor on a task and saving without typing sends the
    text of the task, when that text is not empty and has no white space
    at its ends, as an update of [text] alone for that task, and leaves
    edit mode with the other cells of the view as they were; the store
    then returns the task with nothing changed but [updatedAt]. *)
Theorem edit_untouched (t : Todo) (st : View.State) :
  trim (text t) = text t ->
  text t <> [] ->
  View.saveEditing (fst (View.startEditing t st))
  = (View.mkState (View.newTodoText st) (View.activeFilter st) None [],
     [View.updateTodoMutation (Some (id t))
        (View.mkUpdates (Some (text t)) None)]) /\
  (forall db now,
     fst (getTodo (id t) db) = Some t ->
     fst (updateTodo (id t) (mkUpdateTodo (Some (text t)) None) now db)
     = Some (mkTodo (id t) (text t) (completed t) (createdAt t) now)).
Proof.
  intros Htrim Hne. split.
  - unfold View.saveEditing, View.startEditing. simpl.
    rewrite Htrim. destruct (text t); [contradiction|reflexivity].
  - intros db now Hg.
    exact (updateTodo_returns (id t) _ now db t Hg).
Qed.

Lemma edit_untouched_witness :
  View.saveEditing (fst (View.startEditing buyMilk editingMilk))
  = (View.mkState [] View.Fall None [],
     [View.updateTodoMutation (Some 1)
        (View.mkUpdates (Some (lit "Buy milk")) None)]).
Proof.
  assert (Hne : text buyMilk <> []) by discriminate.
  exact (proj1 (edit_untouched buyMilk editingMilk eq_refl Hne)).
Defined.
